(** * The request handler of the Connect browser SDK

    A shallow embedding of [packages/browser/src/request/request.ts]
    (class [RequestHandler]), of the constants it imports from
    [shared/constants.ts] and of the status bookkeeping of [connect.ts]
    ([manageConnectStatus]), followed by the properties of the request
    life cycle: queueing and replay, request identities, the version gate,
    the polling debounce, the STOPPED gate and listener notification.

    Conventions of the embedding.
    - The handler object is the record [RequestHandler]; every method is a
      computation of the monad [Exec], which threads the handler, collects
      the calls made to the outside world as a list of [Event]s and ends
      either normally or with a JavaScript [TypeError].
    - The transport adapters ([./http], [./npapi], ...) are asynchronous:
      [httpRequest] returns at once and answers later through the callback
      it was given.  A call to an adapter is therefore an [Event]; the
      answer is a later call of [handleResponse] or [checkVersionCallback].
    - Caller supplied functions (request callbacks, the status listener) are
      opaque: invoking one is an [Event]; they are taken to return normally.
      What such a function does to the handler in turn (the listener of
      [connect.ts] calls [start] for drag and drop once RUNNING is
      announced) is a further call on the handler.
    - [nextId] and [pollingRequestErrors] are JavaScript numbers that only
      ever hold small non-negative integers; they are natural numbers here. *)

From Stdlib Require Import ZArith NArith String Ascii List Bool Lia.
From stdpp Require Import base gmap strings list.

Local Open Scope string_scope.
Local Open Scope N_scope.
Local Open Scope list_scope.

(** ** shared/constants.ts *)

Definition MIN_SECURE_VERSION : string := "3.8.0".
Definition MAX_POLLING_ERRORS : N := 3.

Module HTTP_METHOD.
Definition GET : string := "GET".
Definition POST : string := "POST".
Definition DELETE : string := "DELETE".
Definition REVERT : string := "REVERT".
End HTTP_METHOD.

(** The status names exported to the application ([STATUS] of
    [shared/constants.ts]); their values are the names themselves. *)
Module PublicStatus.
Inductive t := INITIALIZING | RETRYING | RUNNING | OUTDATED | FAILED
             | EXTENSION_INSTALL.

Definition value (s : t) : string :=
  match s with
  | INITIALIZING => "INITIALIZING"
  | RETRYING => "RETRYING"
  | RUNNING => "RUNNING"
  | OUTDATED => "OUTDATED"
  | FAILED => "FAILED"
  | EXTENSION_INSTALL => "EXTENSION_INSTALL"
  end.
End PublicStatus.

(** ** shared/sharedInternals: the handler's own status table *)

(** Modelled from the spec: the numeric [STATUS] table that [request.ts]
    imports from [shared/sharedInternals] is not among the sources.  Its
    members are the ones the spec lists for the engine status and the ones
    [request.ts] and [connect.ts] name; they are pairwise distinct (the
    code names RETRYING and DEGRADED separately, and so does the table
    here). *)
Inductive STATUS :=
| INITIALIZING | RETRYING | RUNNING | OUTDATED | FAILED
| EXTENSION_INSTALL | STOPPED | WAITING | DEGRADED.

Global Instance STATUS_eq_dec : EqDecision STATUS := ltac:(solve_decision).

(** ** utils: strings and versions *)

(** [String.prototype.indexOf]: position of the first occurrence, or -1. *)
Definition indexOf (s sub : string) : Z :=
  match String.index 0 sub s with
  | Some n => Z.of_nat n
  | None => (-1)%Z
  end.

Fixpoint split_on (c : ascii) (s : string) : list string :=
  match s with
  | EmptyString => [EmptyString]
  | String a s' =>
      if Ascii.eqb a c then EmptyString :: split_on c s'
      else match split_on c s' with
           | [] => [String a EmptyString]
           | seg :: rest => String a seg :: rest
           end
  end.

Definition digit (a : ascii) : option N :=
  let n := N_of_ascii a in
  if (48 <=? n) && (n <=? 57) then Some (n - 48) else None.

(** The integer a segment starts with (0 when it starts with no digit). *)
Fixpoint parse_digits (acc : N) (s : string) : N :=
  match s with
  | EmptyString => acc
  | String a s' =>
      match digit a with
      | Some d => parse_digits (10 * acc + d) s'
      | None => acc
      end
  end.

Definition segments (v : string) : list N :=
  map (parse_digits 0) (split_on "." v).

(** Missing trailing segments count as 0. *)
Definition pad (n : nat) (l : list N) : list N :=
  l ++ repeat 0 (n - length l)%nat.

Fixpoint lex_compare (a b : list N) : comparison :=
  match a, b with
  | x :: a', y :: b' =>
      match x ?= y with
      | Eq => lex_compare a' b'
      | c => c
      end
  | [], [] => Eq
  | [], _ :: _ => Lt
  | _ :: _, [] => Gt
  end.

Definition version_compare (a b : string) : comparison :=
  let sa := segments a in
  let sb := segments b in
  let n := Nat.max (length sa) (length sb) in
  lex_compare (pad n sa) (pad n sb).

(** Modelled from the spec: [Utils.versionLessThan] lives in the utils
    module, which is not among the sources.  Per the spec it is a
    dotted-numeric compare: each dot-separated segment is compared as an
    integer, missing segments are treated as 0, and ties are
    "not less than". *)
Definition versionLessThan (a b : string) : bool :=
  match version_compare a b with
  | Lt => true
  | _ => false
  end.

(** *** Dotted-numeric notation

    The version strings the spec speaks of, written out: a version is a
    sequence of numerals separated by dots, and a numeral is a sequence of
    decimal digits that denotes an integer in the usual positional way.
    [versionLessThan] is compared with this reading below. *)

Inductive Digit := D0 | D1 | D2 | D3 | D4 | D5 | D6 | D7 | D8 | D9.

Definition digit_value (d : Digit) : N :=
  match d with
  | D0 => 0 | D1 => 1 | D2 => 2 | D3 => 3 | D4 => 4
  | D5 => 5 | D6 => 6 | D7 => 7 | D8 => 8 | D9 => 9
  end.

Definition digit_char (d : Digit) : ascii :=
  match d with
  | D0 => "0" | D1 => "1" | D2 => "2" | D3 => "3" | D4 => "4"
  | D5 => "5" | D6 => "6" | D7 => "7" | D8 => "8" | D9 => "9"
  end%char.

(** The text of a numeral, most significant digit first. *)
Fixpoint numeral (ds : list Digit) : string :=
  match ds with
  | [] => EmptyString
  | d :: ds' => String (digit_char d) (numeral ds')
  end.

(** The integer a numeral denotes (0 for the empty numeral). *)
Definition numeral_value (ds : list Digit) : N :=
  fold_left (fun acc d => 10 * acc + digit_value d) ds 0.

(** The text of a version: its numerals, separated by dots. *)
Fixpoint dotted (v : list (list Digit)) : string :=
  match v with
  | [] => EmptyString
  | [ds] => numeral ds
  | ds :: v' => (numeral ds ++ String "." (dotted v'))%string
  end.

(** The integer of the segment at position [i] (from 0) of a version; a
    segment the version does not have counts as 0. *)
Definition segment_at (i : nat) (v : list (list Digit)) : N :=
  nth i (map numeral_value v) 0.

(** [a] is below [b] segment by segment: at the first position where the
    two versions differ, the integer of [a] is the smaller one. *)
Definition below (a b : list (list Digit)) : Prop :=
  exists i, segment_at i a < segment_at i b
            /\ forall j, (j < i)%nat -> segment_at j a = segment_at j b.

(** ** Data of request.ts *)

(** A function value handed in by the caller, or the [function(){}] that
    [start] substitutes for a missing one. *)
Inductive Fn := UserFn (n : N) | NoopFn.

(** interface ICallback, after normalisation by [start]. *)
Record ICallback := { success : Fn; error : Fn }.

(** The [callbacks] argument of [start] as the caller passes it: a value
    that compares equal to [""] or [null] (or is undefined), or an object
    whose [success] and [error] properties may or may not be functions. *)
Inductive CallbacksArg :=
| NoCallbacks
| CallbacksObject (success error : option Fn).

(** interface IRequest.  [callbacks] is [null] for the requests the
    handler issues on its own behalf. *)
Module IRequest.
Record t := mk {
  id : N;
  method : string;
  path : string;
  data : option string;
  callbacks : option ICallback
}.
End IRequest.

(** The four request implementations [init] chooses from. *)
Inductive Adapter :=
| NPAPIrequestImplementation
| NativeMessageExtRequestImplementation
| SafariAppExtRequestImplementation
| XMLhttpRequestImplementation.

(** What [Utils.parseJson] returns, reduced to the properties the handler
    reads: whether [error] is defined, and [version]. *)
Record Parsed := {
  error_defined : bool;
  version : string;
  body : string
}.

(** The parts of the environment the handler reads and whose code is not
    among the sources: the utils module, the browser probe and the
    adapters' capabilities. *)
Record Utils := {
  parseJson : string -> Parsed;
  checkVersionException : bool;
  SDK_LOCATION : string;
  SESSION_ID : string;
  isSupportedByBrowser : Adapter -> bool;
  stop_is_function : Adapter -> bool;
  SAFARI_NO_NPAPI : bool;
  supportsInstallingExtensions : bool
}.

(** interface IOptions, less the two callbacks, which are the handler's own
    [checkVersion] and [changeConnectStatus]. *)
Record IOptions := {
  options_minVersion : string;
  pluginId : string;
  containerId : string;
  initializeTimeout : Z;
  sdkLocation : string;
  connectMethod : string
}.

(** The body handed to an adapter: a string the caller prepared, or
    [JSON.stringify] of an object with the listed string properties. *)
Inductive Body :=
| Raw (s : string)
| Stringified (properties : list (string * string)).

(** The handler's two response callbacks. *)
Inductive ResponseCallback := HandleResponse | CheckVersionCallback.

(** The argument of a request callback. *)
Inductive CallbackArg := EmptyObject | ParsedResponse (p : Parsed).

(** Calls that leave the handler. *)
Inductive Event :=
| HttpRequest (method path : string) (data : option Body)
    (callback : option ResponseCallback) (requestId : N)
    (sessionId : option string)
| AdapterInit (impl : Adapter)
| AdapterStop (impl : Adapter)
| DetectExtension (impl : Adapter) (timeoutMs : Z)
| SetTimeout (ms : Z)
| PostMessage (message : string)
| StatusListener (listener : N) (status : STATUS)
| Invoke (f : Fn) (arg : CallbackArg).

(** class RequestHandler.  [connectVersion] is the holder of
    [shared/sharedInternals], which the handler writes and reads. *)
Record RequestHandler := mkRequestHandler {
  requestImplementation : option Adapter;
  connectStatus : STATUS;
  nextId : N;
  idCallbackHash : gmap N IRequest.t;
  requestQueue : list IRequest.t;
  statusListener : option N;
  minVersion : string;
  pollingRequestErrors : N;
  connectVersion : string
}.

Definition set_requestImplementation (v : option Adapter) (h : RequestHandler) :=
  mkRequestHandler v (connectStatus h) (nextId h) (idCallbackHash h)
    (requestQueue h) (statusListener h) (minVersion h)
    (pollingRequestErrors h) (connectVersion h).
Definition set_connectStatus (v : STATUS) (h : RequestHandler) :=
  mkRequestHandler (requestImplementation h) v (nextId h) (idCallbackHash h)
    (requestQueue h) (statusListener h) (minVersion h)
    (pollingRequestErrors h) (connectVersion h).
Definition set_nextId (v : N) (h : RequestHandler) :=
  mkRequestHandler (requestImplementation h) (connectStatus h) v
    (idCallbackHash h) (requestQueue h) (statusListener h) (minVersion h)
    (pollingRequestErrors h) (connectVersion h).
Definition set_idCallbackHash (v : gmap N IRequest.t) (h : RequestHandler) :=
  mkRequestHandler (requestImplementation h) (connectStatus h) (nextId h) v
    (requestQueue h) (statusListener h) (minVersion h)
    (pollingRequestErrors h) (connectVersion h).
Definition set_requestQueue (v : list IRequest.t) (h : RequestHandler) :=
  mkRequestHandler (requestImplementation h) (connectStatus h) (nextId h)
    (idCallbackHash h) v (statusListener h) (minVersion h)
    (pollingRequestErrors h) (connectVersion h).
Definition set_statusListener (v : option N) (h : RequestHandler) :=
  mkRequestHandler (requestImplementation h) (connectStatus h) (nextId h)
    (idCallbackHash h) (requestQueue h) v (minVersion h)
    (pollingRequestErrors h) (connectVersion h).
Definition set_minVersion (v : string) (h : RequestHandler) :=
  mkRequestHandler (requestImplementation h) (connectStatus h) (nextId h)
    (idCallbackHash h) (requestQueue h) (statusListener h) v
    (pollingRequestErrors h) (connectVersion h).
Definition set_pollingRequestErrors (v : N) (h : RequestHandler) :=
  mkRequestHandler (requestImplementation h) (connectStatus h) (nextId h)
    (idCallbackHash h) (requestQueue h) (statusListener h) (minVersion h)
    v (connectVersion h).
Definition set_connectVersion (v : string) (h : RequestHandler) :=
  mkRequestHandler (requestImplementation h) (connectStatus h) (nextId h)
    (idCallbackHash h) (requestQueue h) (statusListener h) (minVersion h)
    (pollingRequestErrors h) v.

(** The handler as the field initialisers leave it.  [connectStatus = 0] is
    the member of the status table whose code is 0; the table being absent,
    it is a parameter.  No version has been recorded in [connectVersion]. *)
Definition new_RequestHandler (status0 : STATUS) : RequestHandler :=
  {| requestImplementation := None;
     connectStatus := status0;
     nextId := 0;
     idCallbackHash := ∅;
     requestQueue := [];
     statusListener := None;
     minVersion := "";
     pollingRequestErrors := 0;
     connectVersion := "" |}.

(** ** The monad of handler methods *)

(** What a method returns. *)
Inductive RetVal := Null | Undefined | JsTrue.

(** How a call ends: with a value, or with the [TypeError] of reading a
    property of [null]. *)
Inductive Completion (A : Type) :=
| Normal (v : A)
| TypeError (what : string).
Arguments Normal {A} v.
Arguments TypeError {A} what.

Definition Exec (A : Type) : Type :=
  RequestHandler -> Completion A * RequestHandler * list Event.

Definition ret {A} (v : A) : Exec A := fun h => (Normal v, h, []).

Definition bind {A B} (m : Exec A) (k : A -> Exec B) : Exec B :=
  fun h =>
    match m h with
    | (Normal v, h1, ev1) =>
        match k v h1 with
        | (c, h2, ev2) => (c, h2, ev1 ++ ev2)
        end
    | (TypeError e, h1, ev1) => (TypeError e, h1, ev1)
    end.

Notation "'let*' x ':=' m 'in' k" := (bind m (fun x => k))
  (at level 10, x name, m at level 100, k at level 200).
Notation "m '>>' k" := (bind m (fun _ => k))
  (at level 100, k at level 200, right associativity).

Definition gets {A} (f : RequestHandler -> A) : Exec A :=
  fun h => (Normal (f h), h, []).
Definition modify (f : RequestHandler -> RequestHandler) : Exec unit :=
  fun h => (Normal tt, f h, []).
Definition emit (e : Event) : Exec unit :=
  fun h => (Normal tt, h, [e]).
Definition throw {A} (what : string) : Exec A :=
  fun h => (TypeError what, h, []).

(** [this.requestImplementation.<member>]: a [TypeError] while no
    implementation has been chosen. *)
Definition the_requestImplementation : Exec Adapter :=
  let* impl := gets requestImplementation in
  match impl with
  | Some a => ret a
  | None => throw "requestImplementation"
  end.

(** [this.requestImplementation.httpRequest(...)]. *)
Definition httpRequest (method path : string) (data : option Body)
    (callback : option ResponseCallback) (requestId : N)
    (sessionId : option string) : Exec unit :=
  the_requestImplementation >>
  emit (HttpRequest method path data callback requestId sessionId).

(** [requestInfo.callbacks.<member>]: a [TypeError] when [callbacks] is
    [null]. *)
Definition the_callbacks (requestInfo : IRequest.t) : Exec ICallback :=
  match IRequest.callbacks requestInfo with
  | Some c => ret c
  | None => throw "callbacks"
  end.

(** [this.nextId++]. *)
Definition nextId_postincrement : Exec N :=
  let* n := gets nextId in
  modify (set_nextId (n + 1)) >>
  ret n.

(** [array.pop()]. *)
Definition pop {A} (l : list A) : option (A * list A) :=
  match last l with
  | Some x => Some (x, removelast l)
  | None => None
  end.

(** ** Methods of RequestHandler *)

Section Methods.

Variable U : Utils.

(** One round of the [while] of [processQueue] per unit of [fuel];
    [processQueue] supplies the length of the queue, which the loop never
    exceeds ([processQueue_loop_fuel]). *)
Fixpoint processQueue_loop (fuel : nat) : Exec RetVal :=
  let* queue := gets requestQueue in
  match pop queue with
  | None => ret Null
  | Some (requestInfo, rest) =>
      match fuel with
      | O => ret Null
      | S fuel' =>
          modify (set_requestQueue rest) >>
          httpRequest (IRequest.method requestInfo)
            (IRequest.path requestInfo)
            (Raw <$> IRequest.data requestInfo)
            (Some HandleResponse) (IRequest.id requestInfo)
            (Some (SESSION_ID U)) >>
          processQueue_loop fuel'
      end
  end.

Definition processQueue : Exec RetVal :=
  let* queue := gets requestQueue in
  processQueue_loop (length queue).

Definition checkVersion : Exec RetVal :=
  let* requestId := nextId_postincrement in
  let method := HTTP_METHOD.GET in
  let path := "/connect/info/version" in
  let requestInfo := IRequest.mk requestId method path None None in
  modify (fun h => set_idCallbackHash (<[requestId := requestInfo]> (idCallbackHash h)) h) >>
  httpRequest HTTP_METHOD.GET path None (Some CheckVersionCallback) requestId None >>
  ret Undefined.

Definition changeConnectStatus (newConnectStatus : STATUS) : Exec RetVal :=
  modify (set_connectStatus newConnectStatus) >>
  let* status := gets connectStatus in
  (if decide (status = RUNNING) then processQueue else ret Null) >>
  let* status := gets connectStatus in
  if decide (status = DEGRADED) then
    checkVersion >>
    ret Undefined
  else
    let* listener := gets statusListener in
    match listener with
    | Some l =>
        let* status := gets connectStatus in
        emit (StatusListener l status) >>
        ret Null
    | None => ret Null
    end.

(** [postData] of [checkVersionCallback]. *)
Definition update_require_body (min_version : string) : Body :=
  Stringified [("min_version", min_version); ("sdk_location", SDK_LOCATION U)].

(** Lines 102-124 of [checkVersionCallback]: the gate proper, run once
    the reported version (if any) has been recorded. *)
Definition version_gate : Exec RetVal :=
  let* status := gets connectStatus in
  if bool_decide (status = OUTDATED) && negb (checkVersionException U) then
    ret Undefined
  else
    if negb (checkVersionException U) then
      let* min := gets minVersion in
      (if String.eqb min "" || versionLessThan min MIN_SECURE_VERSION
       then modify (set_minVersion MIN_SECURE_VERSION)
       else ret tt) >>
      let* detected := gets connectVersion in
      let* min := gets minVersion in
      if versionLessThan detected min then
        changeConnectStatus OUTDATED >>
        let* requestId := nextId_postincrement in
        let method := HTTP_METHOD.POST in
        let path := "/connect/update/require" in
        let* min := gets minVersion in
        let postData := update_require_body min in
        let requestInfo := IRequest.mk requestId method path None None in
        modify (fun h => set_idCallbackHash (<[requestId := requestInfo]> (idCallbackHash h)) h) >>
        httpRequest method path (Some postData) None requestId (Some (SESSION_ID U)) >>
        ret Undefined
      else
        changeConnectStatus RUNNING >>
        ret Undefined
    else
      changeConnectStatus RUNNING >>
      ret Undefined.

Definition checkVersionCallback (httpCode : Z) (response : string)
    (requestId : N) : Exec RetVal :=
  modify (fun h => set_idCallbackHash (delete requestId (idCallbackHash h)) h) >>
  if (httpCode =? 200)%Z then
    let parsedResponse := parseJson U response in
    let hasError := error_defined parsedResponse in
    if hasError then ret Undefined
    else
      modify (set_connectVersion (version parsedResponse)) >>
      version_gate
  else version_gate.

(** The path [handleResponse] debounces. *)
Definition polling_path : string := "/connect/transfers/activity".

Definition handleResponse (httpCode : Z) (response : string)
    (requestId : N) : Exec RetVal :=
  let* status := gets connectStatus in
  if decide (status = STOPPED) then ret Null
  else
    let* table := gets idCallbackHash in
    match table !! requestId with
    | None => ret Undefined
    | Some requestInfo =>
        if (httpCode =? 0)%Z then
          let* errors := gets pollingRequestErrors in
          if (errors <? MAX_POLLING_ERRORS)
             && (indexOf (IRequest.path requestInfo) polling_path >? 0)%Z
          then
            modify (set_pollingRequestErrors (errors + 1)) >>
            let* callbacks := the_callbacks requestInfo in
            emit (Invoke (error callbacks) EmptyObject) >>
            ret Undefined
          else
            modify (fun h => set_requestQueue (requestQueue h ++ [requestInfo]) h) >>
            ret Null
        else
          let* status := gets connectStatus in
          (if decide (status = RUNNING) then ret Null
           else changeConnectStatus RUNNING) >>
          let parsedResponse := parseJson U response in
          (if (httpCode =? 200)%Z && negb (error_defined parsedResponse) then
             modify (set_pollingRequestErrors 0) >>
             let* callbacks := the_callbacks requestInfo in
             emit (Invoke (success callbacks) (ParsedResponse parsedResponse))
           else
             let* callbacks := the_callbacks requestInfo in
             emit (Invoke (error callbacks) (ParsedResponse parsedResponse))) >>
          modify (fun h => set_idCallbackHash (delete requestId (idCallbackHash h)) h) >>
          ret Null
    end.

Definition addStatusListener (callback : option N) : Exec RetVal :=
  modify (set_statusListener callback) >>
  ret Undefined.

(** The two "Prepare callbacks" assignments of [start]. *)
Definition prepare_callbacks (callbacks : CallbacksArg) : ICallback :=
  match callbacks with
  | NoCallbacks => {| success := NoopFn; error := NoopFn |}
  | CallbacksObject s e =>
      {| success := default NoopFn s; error := default NoopFn e |}
  end.

Definition start (method path : string) (data : option string)
    (sessionId : string) (callbacks : CallbacksArg) : Exec RetVal :=
  let* status := gets connectStatus in
  if decide (status = STOPPED) then ret Null
  else
    let callbacks := prepare_callbacks callbacks in
    let* requestId := nextId_postincrement in
    let requestInfo := IRequest.mk requestId method path data (Some callbacks) in
    modify (fun h => set_idCallbackHash (<[requestId := requestInfo]> (idCallbackHash h)) h) >>
    let* status := gets connectStatus in
    (if decide (status = DEGRADED) then checkVersion else ret Undefined) >>
    let* status := gets connectStatus in
    if decide (status = RUNNING) then
      httpRequest method path (Raw <$> data) (Some HandleResponse) requestId
        (Some sessionId) >>
      ret Null
    else
      modify (fun h => set_requestQueue (requestQueue h ++ [requestInfo]) h) >>
      ret Null.

Definition stopRequests : Exec RetVal :=
  modify (set_connectStatus STOPPED) >>
  let* impl := the_requestImplementation in
  (if stop_is_function U impl then emit (AdapterStop impl) else ret tt) >>
  ret JsTrue.

(** *** init and the closures it hands out *)

Definition setRequestImpl (impl : Adapter) : Exec unit :=
  modify (set_requestImplementation (Some impl)) >>
  if negb (isSupportedByBrowser U impl) then ret tt
  else emit (AdapterInit impl).

Definition initializeTimeoutCallback : Exec RetVal :=
  let* status := gets connectStatus in
  if negb (bool_decide (status = RUNNING)) && negb (bool_decide (status = OUTDATED))
  then changeConnectStatus FAILED >> ret Undefined
  else ret Undefined.

Definition startInitTimeout (options : IOptions) : Exec unit :=
  emit (SetTimeout (initializeTimeout options)).

Definition setHttpRequestImpl (options : IOptions) : Exec unit :=
  startInitTimeout options >>
  setRequestImpl XMLhttpRequestImplementation.

Definition extReqImpl : Adapter :=
  if SAFARI_NO_NPAPI U then SafariAppExtRequestImplementation
  else NativeMessageExtRequestImplementation.

(** [success] of the [detectExtension] callbacks. *)
Definition detectExtension_success : Exec RetVal :=
  setRequestImpl extReqImpl >> ret Undefined.

(** [timedout] of the [detectExtension] callbacks; [min39] and
    [supportsInstall] were computed by [init] from its options. *)
Definition detectExtension_timedout (options : IOptions) : Exec RetVal :=
  let min39 := negb (String.eqb (options_minVersion options) "")
               && negb (versionLessThan (options_minVersion options) "3.9") in
  let supportsInstall := supportsInstallingExtensions U in
  if String.eqb (connectMethod options) "extension" || (supportsInstall && min39)
  then
    (if SAFARI_NO_NPAPI U then startInitTimeout options
     else
       changeConnectStatus EXTENSION_INSTALL >>
       emit (PostMessage "show_extension_install")) >>
    setRequestImpl extReqImpl >>
    ret Undefined
  else
    setHttpRequestImpl options >>
    ret Undefined.

Definition init (options : IOptions) : Exec RetVal :=
  changeConnectStatus INITIALIZING >>
  modify (set_minVersion (options_minVersion options)) >>
  if isSupportedByBrowser U NPAPIrequestImplementation then
    modify (set_requestImplementation (Some NPAPIrequestImplementation)) >>
    emit (AdapterInit NPAPIrequestImplementation) >>
    ret Undefined
  else if String.eqb (connectMethod options) "http"
          || negb (isSupportedByBrowser U extReqImpl) then
    setHttpRequestImpl options >>
    ret Undefined
  else
    emit (DetectExtension extReqImpl 1000) >>
    ret Undefined.

(** *** Runs of the handler *)

(** The calls the outside world makes on a handler: the application
    ([start], [addStatusListener], [init], [stopRequests]), the adapter
    (the two response callbacks, and [checkVersion] and
    [changeConnectStatus], which [init] hands it as [callback] and
    [requestStatusCallback]) and the timers and detection callbacks that
    [init] arms. *)
Inductive Op :=
| Start (method path : string) (data : option string) (sessionId : string)
    (callbacks : CallbacksArg)
| HandleResponseOp (httpCode : Z) (response : string) (requestId : N)
| CheckVersion
| CheckVersionCallbackOp (httpCode : Z) (response : string) (requestId : N)
| ChangeConnectStatus (newConnectStatus : STATUS)
| AddStatusListener (callback : option N)
| Init (options : IOptions)
| DetectExtensionSuccess
| DetectExtensionTimedout (options : IOptions)
| InitializeTimeout
| StopRequests.

Definition call (op : Op) : Exec RetVal :=
  match op with
  | Start method path data sessionId callbacks =>
      start method path data sessionId callbacks
  | HandleResponseOp httpCode response requestId =>
      handleResponse httpCode response requestId
  | CheckVersion => checkVersion
  | CheckVersionCallbackOp httpCode response requestId =>
      checkVersionCallback httpCode response requestId
  | ChangeConnectStatus newConnectStatus => changeConnectStatus newConnectStatus
  | AddStatusListener callback => addStatusListener callback
  | Init options => init options
  | DetectExtensionSuccess => detectExtension_success
  | DetectExtensionTimedout options => detectExtension_timedout options
  | InitializeTimeout => initializeTimeoutCallback
  | StopRequests => stopRequests
  end.

(** The handler after a call, however the call ended: an exception
    leaves the assignments made before it in place. *)
Definition after {A} (m : Exec A) (h : RequestHandler) : RequestHandler :=
  snd (fst (m h)).
Definition events {A} (m : Exec A) (h : RequestHandler) : list Event :=
  snd (m h).
Definition completion {A} (m : Exec A) (h : RequestHandler) : Completion A :=
  fst (fst (m h)).

(** A sequence of calls, one after the other. *)
Fixpoint run (ops : list Op) (h : RequestHandler) : RequestHandler * list Event :=
  match ops with
  | [] => (h, [])
  | op :: ops' =>
      let '(h', ev) := run ops' (after (call op) h) in
      (h', events (call op) h ++ ev)
  end.

End Methods.

(** ** connect.ts: the status listener the application object registers *)

Module Connect.

Module EVENT.
Definition ALL : string := "all".
Definition TRANSFER : string := "transfer".
Definition STATUS : string := "status".
End EVENT.

(** The variables of the [Connect] closure that [manageConnectStatus]
    touches. *)
Record t := mk {
  connectStatus : PublicStatus.t;
  statusListeners : list N;
  DRAGDROP_ENABLED : bool
}.

Inductive Event :=
| ConnectHttpRequest (method path : string)
| Listener (listener : N) (eventType : string) (status : PublicStatus.t).

Definition notifyStatusListeners (notifyStatus : PublicStatus.t) (c : t) : list Event :=
  map (fun l => Listener l EVENT.STATUS notifyStatus) (statusListeners c).

Definition setConnectStatus (newStatus : PublicStatus.t) (c : t) : t :=
  mk newStatus (statusListeners c) (DRAGDROP_ENABLED c).

Definition manageConnectStatus (newStatus : STATUS) (c : t) : t * list Event :=
  let ev :=
    if bool_decide (newStatus = RUNNING) && DRAGDROP_ENABLED c
    then [ConnectHttpRequest HTTP_METHOD.GET "/connect/file/initialize-drag-drop"]
    else [] in
  let c' :=
    match newStatus with
    | INITIALIZING => setConnectStatus PublicStatus.INITIALIZING c
    | RETRYING => setConnectStatus PublicStatus.RETRYING c
    | FAILED => setConnectStatus PublicStatus.FAILED c
    | EXTENSION_INSTALL => setConnectStatus PublicStatus.EXTENSION_INSTALL c
    | WAITING => c
    | OUTDATED =>
        match connectStatus c with
        | PublicStatus.OUTDATED => c
        | _ => setConnectStatus PublicStatus.OUTDATED c
        end
    | _ => setConnectStatus PublicStatus.RUNNING c
    end in
  (c', ev ++ notifyStatusListeners (connectStatus c') c').

End Connect.

(** ** connect.ts: registering and removing event listeners *)

Module Listeners.

(** What a caller may pass for [type] and [listener]: nothing, a string, a
    function or a value of another type.  Functions are compared by
    identity. *)
Inductive JsValue :=
| JsUndefined
| JsString (s : string)
| JsFunction (f : N)
| JsOther.

(** The variables of the [Connect] closure that [addEventListener] and
    [removeEventListener] touch; [statusListeners] is the array that
    [manageConnectStatus] notifies. *)
Record t := mk {
  connect : Connect.t;
  transferListeners : list N;
  transferEventIntervalId : Z
}.

Definition statusListeners (c : t) : list N :=
  Connect.statusListeners (connect c).

Definition set_transferListeners (listeners : list N) (c : t) : t :=
  mk (connect c) listeners (transferEventIntervalId c).

Definition set_statusListeners (listeners : list N) (c : t) : t :=
  mk (Connect.mk (Connect.connectStatus (connect c)) listeners
        (Connect.DRAGDROP_ENABLED (connect c)))
     (transferListeners c) (transferEventIntervalId c).

Definition set_transferEventIntervalId (id : Z) (c : t) : t :=
  mk (connect c) (transferListeners c) id.

(** The timer calls; the delay of [setInterval] is the constant
    [POLLING_TIME] of the closure, and [handle] is what it returned. *)
Inductive Event :=
| SetInterval (handle : Z)
| ClearInterval (handle : Z).

(** [null], or the object [Utils.createError(code, message)] builds. *)
Inductive Result :=
| JsNull
| CreateError (code : Z) (message : string).

(** [Array.prototype.indexOf]: the first index holding [listener], or -1. *)
Fixpoint indexOf_from (fromIndex : Z) (listener : N) (listenerArray : list N) : Z :=
  match listenerArray with
  | [] => (-1)%Z
  | x :: rest =>
      if decide (x = listener) then fromIndex
      else indexOf_from (fromIndex + 1)%Z listener rest
  end.

(** The arrays hold functions only ([addEventListener] refuses anything
    else), so a value that is not a function is found nowhere. *)
Definition indexOf (listener : JsValue) (listenerArray : list N) : Z :=
  match listener with
  | JsFunction f => indexOf_from 0 f listenerArray
  | _ => (-1)%Z
  end.

(** [listenerArray.splice(index, 1)] for an index that is not negative. *)
Definition splice (index : Z) (listenerArray : list N) : list N :=
  take (Z.to_nat index) listenerArray ++ drop (S (Z.to_nat index)) listenerArray.

(** The [while (index > -1)] loop of [removeEventListenerHelper]. *)
Fixpoint removeEventListenerHelper_loop (fuel : nat) (listener : JsValue)
    (listenerArray : list N) (listenerFound : bool) (index : Z)
    : bool * list N :=
  match fuel with
  | O => (listenerFound, listenerArray)
  | S fuel' =>
      if (index >? -1)%Z then
        let listenerArray := splice index listenerArray in
        removeEventListenerHelper_loop fuel' listener listenerArray true
          (indexOf listener listenerArray)
      else (listenerFound, listenerArray)
  end.

(** Every round removes an element, so the length of the array (and one
    round more for the test that ends the loop) is fuel enough. *)
Definition removeEventListenerHelper (listener : JsValue)
    (listenerArray : list N) : bool * list N :=
  removeEventListenerHelper_loop (S (length listenerArray)) listener
    listenerArray false (indexOf listener listenerArray).

Definition addEventListener (type listener : JsValue) (handle : Z) (c : t)
    : Result * t * list Event :=
  match type, listener with
  | JsString type, JsFunction listener =>
      let '(c, ev) :=
        if String.eqb type Connect.EVENT.TRANSFER || String.eqb type Connect.EVENT.ALL
        then
          let '(c, ev) :=
            if (transferEventIntervalId c =? 0)%Z
            then (set_transferEventIntervalId handle c, [SetInterval handle])
            else (c, []) in
          (set_transferListeners (transferListeners c ++ [listener]) c, ev)
        else (c, []) in
      let c :=
        if String.eqb type Connect.EVENT.STATUS || String.eqb type Connect.EVENT.ALL
        then set_statusListeners (statusListeners c ++ [listener]) c
        else c in
      (JsNull, c, ev)
  | JsString _, _ => (CreateError (-1) "Invalid Listener parameter", c, [])
  | _, _ => (CreateError (-1) "Invalid EVENT parameter", c, [])
  end.

(** [if (transferListeners.length > 0) { transferListeners = [];
    listenerFound = true; }] *)
Definition empty_transferListeners (state : bool * t) : bool * t :=
  if (0 <? length (transferListeners (snd state)))%nat
  then (true, set_transferListeners [] (snd state))
  else state.

Definition empty_statusListeners (state : bool * t) : bool * t :=
  if (0 <? length (statusListeners (snd state)))%nat
  then (true, set_statusListeners [] (snd state))
  else state.

(** [listenerFound = listenerFound || removeEventListenerHelper(listener,
    transferListeners)]: the helper is not called once [listenerFound]
    holds. *)
Definition remove_from_transferListeners (listener : JsValue)
    (state : bool * t) : bool * t :=
  if fst state then state
  else
    let result := removeEventListenerHelper listener (transferListeners (snd state)) in
    (fst result, set_transferListeners (snd result) (snd state)).

Definition remove_from_statusListeners (listener : JsValue)
    (state : bool * t) : bool * t :=
  if fst state then state
  else
    let result := removeEventListenerHelper listener (statusListeners (snd state)) in
    (fst result, set_statusListeners (snd result) (snd state)).

(** The four-way case distinction of [removeEventListener], up to the
    final test on [transferListeners]. *)
Definition remove_listeners (type listener : JsValue) (c : t) : bool * t :=
  match type with
  | JsUndefined =>
      empty_statusListeners (empty_transferListeners (false, c))
  | JsString type =>
      let transfer :=
        String.eqb type Connect.EVENT.TRANSFER || String.eqb type Connect.EVENT.ALL in
      let status :=
        String.eqb type Connect.EVENT.STATUS || String.eqb type Connect.EVENT.ALL in
      match listener with
      | JsFunction _ =>
          let state :=
            if transfer then remove_from_transferListeners listener (false, c)
            else (false, c) in
          if status then remove_from_statusListeners listener state else state
      | _ =>
          let state :=
            if transfer then empty_transferListeners (false, c) else (false, c) in
          if status then empty_statusListeners state else state
      end
  | _ =>
      remove_from_statusListeners type
        (remove_from_transferListeners type (false, c))
  end.

Definition removeEventListener (type listener : JsValue) (c : t)
    : bool * t * list Event :=
  let state := remove_listeners type listener c in
  if (length (transferListeners (snd state)) =? 0)%nat then
    (fst state, set_transferEventIntervalId 0 (snd state),
     [ClearInterval (transferEventIntervalId (snd state))])
  else (fst state, snd state, []).

(** The calls an application makes, one after the other. *)
Inductive Op :=
| AddEventListener (type listener : JsValue) (handle : Z)
| RemoveEventListener (type listener : JsValue).

Definition call (op : Op) (c : t) : t * list Event :=
  match op with
  | AddEventListener type listener handle =>
      let result := addEventListener type listener handle c in
      (snd (fst result), snd result)
  | RemoveEventListener type listener =>
      let result := removeEventListener type listener c in
      (snd (fst result), snd result)
  end.

Fixpoint run (ops : list Op) (c : t) : t * list Event :=
  match ops with
  | [] => (c, [])
  | op :: ops' =>
      let result := call op c in
      let rest := run ops' (fst result) in
      (fst rest, snd result ++ snd rest)
  end.

(** [setInterval] never returns 0. *)
Definition proper_handle (op : Op) : Prop :=
  match op with
  | AddEventListener _ _ handle => handle <> 0%Z
  | RemoveEventListener _ _ => True
  end.

(** The polling timer is set exactly while there are transfer listeners. *)
Definition armed (c : t) : Prop :=
  transferEventIntervalId c = 0%Z <-> transferListeners c = [].

(** The timers that are running after the timer calls [ev], [live] being
    the ones that were running before. *)
Definition live_timers (live : list Z) (ev : list Event) : list Z :=
  fold_left
    (fun live e =>
       match e with
       | SetInterval handle => live ++ [handle]
       | ClearInterval handle => filter (fun x => x <> handle) live
       end)
    ev live.

(** The timer the closure has on record. *)
Definition recorded_timer (c : t) : list Z :=
  if (transferEventIntervalId c =? 0)%Z then [] else [transferEventIntervalId c].

End Listeners.

(** ** Reasoning about handler computations *)

(** A relation between the handler before a computation, the handler after
    it and the events it emitted, that holds of doing nothing and is closed
    under sequencing. *)
Class Composable (R : RequestHandler -> RequestHandler -> list Event -> Prop) := {
  composable_refl : forall h, R h h [];
  composable_trans : forall h h1 h2 ev1 ev2,
    R h h1 ev1 -> R h1 h2 ev2 -> R h h2 (ev1 ++ ev2)
}.

(** [m], run on [h], stays within [R]. *)
Definition within (R : RequestHandler -> RequestHandler -> list Event -> Prop)
    {A} (m : Exec A) (h : RequestHandler) : Prop :=
  R h (after m h) (events m h).

(** ** Request identities: how a call may change the handler *)

(** The call [processQueue] makes for a queued request. *)
Definition replay (U : Utils) (requestInfo : IRequest.t) : Event :=
  HttpRequest (IRequest.method requestInfo) (IRequest.path requestInfo)
    (Raw <$> IRequest.data requestInfo) (Some HandleResponse)
    (IRequest.id requestInfo) (Some (SESSION_ID U)).

(** The request ids a list of events hands to the adapter. *)
Definition sent_ids (ev : list Event) : list N :=
  omap (fun e => match e with
                 | HttpRequest _ _ _ _ requestId _ => Some requestId
                 | _ => None
                 end) ev.

(** A request the handler holds: queued, or pending in the table. *)
Definition known (h : RequestHandler) (r : IRequest.t) : Prop :=
  r ∈ requestQueue h \/ exists k, idCallbackHash h !! k = Some r.

(** What every call respects.  The counter only grows; a table entry is
    either an old entry, unchanged, or a new one stored under an id taken
    from the counter during the call; the queue holds requests the handler
    already held or new ones; the adapter is given ids of requests held or
    created. *)
Record Grows (h h' : RequestHandler) (ev : list Event) : Prop := {
  grows_nextId : nextId h <= nextId h';
  grows_table : forall k r,
    idCallbackHash h' !! k = Some r ->
    idCallbackHash h !! k = Some r
    \/ (nextId h <= k < nextId h' /\ IRequest.id r = k);
  grows_queue : forall r,
    r ∈ requestQueue h' ->
    known h r \/ nextId h <= IRequest.id r < nextId h';
  grows_sent : forall i,
    i ∈ sent_ids ev ->
    (exists r, known h r /\ IRequest.id r = i) \/ nextId h <= i < nextId h'
}.

(** The bookkeeping invariant: a pending request is stored under its own
    id, and every id in use was taken from the counter. *)
Record consistent (h : RequestHandler) : Prop := {
  table_ids : forall k r,
    idCallbackHash h !! k = Some r -> IRequest.id r = k /\ k < nextId h;
  queue_ids : forall r, r ∈ requestQueue h -> IRequest.id r < nextId h
}.

(** ** The requests the handler creates *)

(** The request [start] creates. *)
Definition new_request (h : RequestHandler) (method path : string)
    (data : option string) (callbacks : CallbacksArg) : IRequest.t :=
  IRequest.mk (nextId h) method path data (Some (prepare_callbacks callbacks)).

(** The request [checkVersion] creates. *)
Definition version_request (requestId : N) : IRequest.t :=
  IRequest.mk requestId HTTP_METHOD.GET "/connect/info/version" None None.

(** The request that tells Connect an update is required. *)
Definition update_request (requestId : N) : IRequest.t :=
  IRequest.mk requestId HTTP_METHOD.POST "/connect/update/require" None None.

(** ** Replay: what a call may do to the queue *)

(** The status is left as it was. *)
Definition Same_status (h h' : RequestHandler) (ev : list Event) : Prop :=
  connectStatus h' = connectStatus h.

(** Nothing is taken off the queue, and the adapter is given only requests
    with ids from [lo] up. *)
Record Calm (lo : N) (h h' : RequestHandler) (ev : list Event) : Prop := {
  calm_nextId : lo <= nextId h';
  calm_queue : requestQueue h `prefix_of` requestQueue h';
  calm_sent : forall i, i ∈ sent_ids ev -> lo <= i
}.

(** Calm, and the status is left as it was.  [lo] is a bound the counter
    has reached when the computation starts. *)
Definition Quiet (lo : N) (h h' : RequestHandler) (ev : list Event) : Prop :=
  lo <= nextId h -> Calm lo h h' ev /\ connectStatus h' = connectStatus h.

(** Calm, unless the status has become RUNNING. *)
Definition Unless_running (lo : N) (h h' : RequestHandler) (ev : list Event) : Prop :=
  lo <= nextId h ->
  lo <= nextId h' /\ (connectStatus h' = RUNNING \/ Calm lo h h' ev).

(** What [changeConnectStatus] does once the status is assigned. *)
Definition after_assignment (U : Utils) : Exec RetVal :=
  let* status := gets connectStatus in
  (if decide (status = RUNNING) then processQueue U else ret Null) >>
  let* status := gets connectStatus in
  if decide (status = DEGRADED) then
    checkVersion >>
    ret Undefined
  else
    let* listener := gets statusListener in
    match listener with
    | Some l =>
        let* status := gets connectStatus in
        emit (StatusListener l status) >>
        ret Null
    | None => ret Null
    end.

(** No call of the sequence leaves the handler RUNNING. *)
Fixpoint never_running (U : Utils) (ops : list Op) (h : RequestHandler) : Prop :=
  match ops with
  | [] => True
  | op :: ops' =>
      connectStatus (after (call U op) h) <> RUNNING
      /\ never_running U ops' (after (call U op) h)
  end.

(** The calls the STOPPED gate covers. *)
Definition gated (op : Op) : bool :=
  match op with
  | Start _ _ _ _ _ | HandleResponseOp _ _ _ => true
  | _ => false
  end.

(** The notification [changeConnectStatus] ends with, for a status other
    than DEGRADED. *)
Definition listener_events (h : RequestHandler) (status : STATUS) : list Event :=
  match statusListener h with
  | Some l => [StatusListener l status]
  | None => []
  end.

(** ** The version gate *)

(** The minimum version [checkVersionCallback] enforces (lines 107-109):
    the caller's, unless it is empty or below the floor. *)
Definition effective_minimum (minVersion : string) : string :=
  if String.eqb minVersion "" || versionLessThan minVersion MIN_SECURE_VERSION
  then MIN_SECURE_VERSION
  else minVersion.

(** ** Submissions *)

(** The arguments of one call of [start]. *)
Record Submission := {
  submitted_method : string;
  submitted_path : string;
  submitted_data : option string;
  submitted_sessionId : string;
  submitted_callbacks : CallbacksArg
}.

Definition submit (s : Submission) : Op :=
  Start (submitted_method s) (submitted_path s) (submitted_data s)
    (submitted_sessionId s) (submitted_callbacks s).

(** The requests [start] creates for a sequence of submissions, the first
    of which gets [requestId]. *)
Fixpoint submitted_requests (requestId : N) (subs : list Submission)
    : list IRequest.t :=
  match subs with
  | [] => []
  | s :: subs' =>
      IRequest.mk requestId (submitted_method s) (submitted_path s)
        (submitted_data s) (Some (prepare_callbacks (submitted_callbacks s)))
      :: submitted_requests (requestId + 1) subs'
  end.

(** ** The polling error counter *)

(** The counter stays within [MAX_POLLING_ERRORS] if it was. *)
Definition Bounded_errors (h h' : RequestHandler) (ev : list Event) : Prop :=
  pollingRequestErrors h <= MAX_POLLING_ERRORS ->
  pollingRequestErrors h' <= MAX_POLLING_ERRORS.

(** ** A sample environment, to instantiate the theorems *)

Module Sample.

Definition quote : string := String "034"%char EmptyString.

(** The text of the string property [key] of a flat JSON object. *)
Definition property (key s : string) : option string :=
  let opening := (quote ++ key ++ quote ++ ":" ++ quote)%string in
  match String.index 0 opening s with
  | Some n =>
      let from := (n + String.length opening)%nat in
      let rest := String.substring from (String.length s - from) s in
      match String.index 0 quote rest with
      | Some m => Some (String.substring 0 m rest)
      | None => None
      end
  | None => None
  end.

Definition has_property (key s : string) : bool :=
  match String.index 0 (quote ++ key ++ quote ++ ":")%string s with
  | Some _ => true
  | None => false
  end.

Definition parse (s : string) : Parsed :=
  {| error_defined := has_property "error" s;
     version := default "" (property "version" s);
     body := s |}.

Definition utils : Utils :=
  {| parseJson := parse;
     checkVersionException := false;
     SDK_LOCATION := "//d3gcli72yxqn2z.cloudfront.net/connect/v4";
     SESSION_ID := "session-1";
     isSupportedByBrowser := fun impl =>
       match impl with
       | XMLhttpRequestImplementation => true
       | _ => false
       end;
     stop_is_function := fun _ => true;
     SAFARI_NO_NPAPI := false;
     supportsInstallingExtensions := false |}.

(** A browser with the native-messaging extension available. *)
Definition extension_utils : Utils :=
  {| parseJson := parse;
     checkVersionException := false;
     SDK_LOCATION := "//d3gcli72yxqn2z.cloudfront.net/connect/v4";
     SESSION_ID := "session-1";
     isSupportedByBrowser := fun impl =>
       match impl with
       | XMLhttpRequestImplementation
       | NativeMessageExtRequestImplementation => true
       | _ => false
       end;
     stop_is_function := fun _ => true;
     SAFARI_NO_NPAPI := false;
     supportsInstallingExtensions := true |}.

(** The body [{"version":"<v>"}]. *)
Definition version_response (v : string) : string :=
  ("{" ++ quote ++ "version" ++ quote ++ ":" ++ quote ++ v ++ quote ++ "}")%string.

Definition options : IOptions :=
  {| options_minVersion := "";
     pluginId := "aspera-web";
     containerId := "aspera-web-container";
     initializeTimeout := 5000;
     sdkLocation := "//d3gcli72yxqn2z.cloudfront.net/connect/v4";
     connectMethod := "http" |}.

(** No preference between HTTP and the extension. *)
Definition default_options : IOptions :=
  {| options_minVersion := "";
     pluginId := "aspera-web";
     containerId := "aspera-web-container";
     initializeTimeout := 5000;
     sdkLocation := "//d3gcli72yxqn2z.cloudfront.net/connect/v4";
     connectMethod := "" |}.

(** A handler after [init] over HTTP, in the given status. *)
Definition handler (status : STATUS) : RequestHandler :=
  set_connectStatus status
    (set_requestImplementation (Some XMLhttpRequestImplementation)
       (new_RequestHandler INITIALIZING)).

Definition activity : IRequest.t :=
  IRequest.mk 0 HTTP_METHOD.POST "/connect/transfers/activity" (Some "{}")
    (Some {| success := UserFn 1; error := UserFn 2 |}).

(** The same request under a path that carries a prefix. *)
Definition prefixed_activity : IRequest.t :=
  IRequest.mk 0 HTTP_METHOD.POST "/v6/connect/transfers/activity" (Some "{}")
    (Some {| success := UserFn 1; error := UserFn 2 |}).

(** A handler with one pending request, not queued. *)
Definition pending (status : STATUS) (requestInfo : IRequest.t) : RequestHandler :=
  set_idCallbackHash {[ IRequest.id requestInfo := requestInfo ]}
    (set_nextId (IRequest.id requestInfo + 1) (handler status)).

(** A handler with one pending request that waits in the queue. *)
Definition queued (status : STATUS) (requestInfo : IRequest.t) : RequestHandler :=
  set_requestQueue [requestInfo] (pending status requestInfo).

(** A handler whose first version check is under way. *)
Definition checking (status : STATUS) : RequestHandler :=
  pending status (version_request 0).

(** The same handlers with a status listener registered. *)
Definition listening (h : RequestHandler) : RequestHandler :=
  set_statusListener (Some 7) h.

(** [init] over HTTP, a version check, then [stopRequests]. *)
Definition stopped_early : RequestHandler :=
  fst (run utils [Init options; CheckVersion; StopRequests]
         (new_RequestHandler INITIALIZING)).

(** [init] where the extension has to be detected first. *)
Definition detecting : RequestHandler :=
  fst (run extension_utils [Init default_options] (new_RequestHandler INITIALIZING)).

(** Calls made on a fresh handler. *)
Definition first_calls : list Op :=
  [Init options;
   Start HTTP_METHOD.GET "/connect/info/ping" None "session-1" NoCallbacks;
   CheckVersion].

Definition later_calls : list Op :=
  [Start HTTP_METHOD.POST "/connect/transfers/activity" (Some "{}") "session-1"
     NoCallbacks].

End Sample.

(** ** Sample submissions *)

Module Scenario.

Definition ping : Submission :=
  {| submitted_method := HTTP_METHOD.GET;
     submitted_path := "/connect/info/ping";
     submitted_data := None;
     submitted_sessionId := "tab-7";
     submitted_callbacks := NoCallbacks |}.

Definition transfer : Submission :=
  {| submitted_method := HTTP_METHOD.POST;
     submitted_path := "/connect/transfers/start";
     submitted_data := Some "{}";
     submitted_sessionId := "tab-7";
     submitted_callbacks := CallbacksObject (Some (UserFn 1)) None |}.

(** A second request, pending beside an older one. *)
Definition later_upload : IRequest.t :=
  IRequest.mk 1 HTTP_METHOD.POST "/connect/transfers/start" (Some "{}")
    (Some {| success := UserFn 1; error := UserFn 2 |}).

(** A handler that waits with one request in the queue and a second one
    sent and not yet answered. *)
Definition backlog : RequestHandler :=
  set_idCallbackHash
    (<[1 := later_upload]>
       (idCallbackHash (Sample.queued INITIALIZING Sample.activity)))
    (set_nextId 2 (Sample.queued INITIALIZING Sample.activity)).

(** A deployment that sets the version-check exception. *)
Definition lenient_utils : Utils :=
  {| parseJson := Sample.parse;
     checkVersionException := true;
     SDK_LOCATION := "//d3gcli72yxqn2z.cloudfront.net/connect/v4";
     SESSION_ID := "session-1";
     isSupportedByBrowser := fun impl =>
       match impl with
       | XMLhttpRequestImplementation => true
       | _ => false
       end;
     stop_is_function := fun _ => true;
     SAFARI_NO_NPAPI := false;
     supportsInstallingExtensions := false |}.

(** A page with one listener for status events, before any call for
    transfer events. *)
Definition page : Listeners.t :=
  Listeners.mk (Connect.mk PublicStatus.RUNNING [4] false) [] 0.

(** A page that polls for one transfer listener. *)
Definition polling_page : Listeners.t :=
  Listeners.mk (Connect.mk PublicStatus.RUNNING [4] false) [5] 12.

(** [init] over HTTP, a request that has to wait, a version check, and
    then [stopRequests] before Connect has answered. *)
Definition stopped_with_backlog : RequestHandler :=
  fst (run Sample.utils [Init Sample.options; submit ping; CheckVersion; StopRequests]
         (new_RequestHandler INITIALIZING)).

(** A handler on which [start] was called twice before [init]. *)
Definition early : RequestHandler :=
  fst (run Sample.utils [submit ping; submit transfer]
         (new_RequestHandler INITIALIZING)).

End Scenario.

(** * Properties *)

(** ** The monad *)

Lemma within_bind R `{!Composable R} {A B} (m : Exec A) (k : A -> Exec B) h :
  within R m h ->
  (forall v, completion m h = Normal v -> within R (k v) (after m h)) ->
  within R (bind m k) h.
Proof.
  unfold within, after, events, completion, bind. intros Hm Hk.
  destruct (m h) as [[[v|e] h1] ev1]; simpl in *; [|exact Hm].
  specialize (Hk v eq_refl).
  destruct (k v h1) as [[c h2] ev2]; simpl in *.
  eapply composable_trans; eauto.
Qed.

Lemma bind_congr {A B} (m : Exec A) (k1 k2 : A -> Exec B) h :
  (forall v, completion m h = Normal v -> k1 v (after m h) = k2 v (after m h)) ->
  bind m k1 h = bind m k2 h.
Proof.
  unfold bind, completion, after. intros Hk.
  destruct (m h) as [[[v|e] h1] ev1]; simpl in *; [|reflexivity].
  by rewrite (Hk v eq_refl).
Qed.

Lemma within_ext R {A} (m m' : Exec A) h :
  m h = m' h -> within R m' h -> within R m h.
Proof. unfold within, after, events. by intros ->. Qed.

Lemma within_ret R `{!Composable R} {A} (v : A) h : within R (ret v) h.
Proof. apply composable_refl. Qed.

Lemma within_gets R `{!Composable R} {A} (f : RequestHandler -> A) h :
  within R (gets f) h.
Proof. apply composable_refl. Qed.

Lemma within_throw R `{!Composable R} {A} e h : within R (@throw A e) h.
Proof. apply composable_refl. Qed.

Lemma completion_gets {A} (f : RequestHandler -> A) h v :
  completion (gets f) h = Normal v -> v = f h.
Proof. unfold completion, gets. simpl. congruence. Qed.

Lemma completion_nextId_postincrement h v :
  completion nextId_postincrement h = Normal v -> v = nextId h.
Proof. unfold completion. simpl. congruence. Qed.

Lemma after_gets {A} (f : RequestHandler -> A) h : after (gets f) h = h.
Proof. reflexivity. Qed.

Lemma after_modify f h : after (modify f) h = f h.
Proof. reflexivity. Qed.

(** *** pop and the queue loop *)

Lemma pop_nil {A} : pop (@nil A) = None.
Proof. reflexivity. Qed.

Lemma pop_snoc {A} (l : list A) x : pop (l ++ [x]) = Some (x, l).
Proof. unfold pop. by rewrite last_snoc, removelast_last. Qed.

Lemma pop_None {A} (l : list A) : pop l = None -> l = [].
Proof.
  destruct l as [|y l] using rev_ind; [done|]. by rewrite pop_snoc.
Qed.

Lemma pop_Some {A} (l : list A) x rest : pop l = Some (x, rest) -> l = rest ++ [x].
Proof.
  destruct l as [|y l _] using rev_ind; [done|].
  rewrite pop_snoc. congruence.
Qed.

Lemma processQueue_loop_sends U impl fuel h :
  requestImplementation h = Some impl ->
  (length (requestQueue h) <= fuel)%nat ->
  processQueue_loop U fuel h
  = (Normal Null, set_requestQueue [] h, map (replay U) (rev (requestQueue h))).
Proof.
  revert h. induction fuel as [|fuel IH]; intros h Himpl Hlen.
  - destruct h as [ri st n tbl q l mv pe cv]; simpl in *.
    destruct q; simpl in *; [reflexivity|lia].
  - destruct h as [ri st n tbl q l mv pe cv]; simpl in *. subst ri.
    destruct q as [|x q _] using rev_ind.
    + reflexivity.
    + unfold bind, gets at 1. simpl. rewrite pop_snoc.
      unfold modify, httpRequest, the_requestImplementation, bind, gets, ret, emit.
      simpl.
      rewrite length_app in Hlen. simpl in Hlen.
      rewrite IH; [|reflexivity|simpl; lia].
      simpl. rewrite rev_unit. reflexivity.
Qed.

Lemma processQueue_unfold U h :
  processQueue U h = processQueue_loop U (length (requestQueue h)) h.
Proof.
  unfold processQueue, bind, gets. simpl.
  by destruct (processQueue_loop U _ h) as [[c h'] ev].
Qed.

Lemma httpRequest_queue m p d cb i sid h :
  requestQueue (after (httpRequest m p d cb i sid) h) = requestQueue h.
Proof.
  unfold after, httpRequest, the_requestImplementation, bind, gets, ret, emit, throw.
  simpl. by destruct (requestImplementation h).
Qed.

(** The loop never runs out of rounds: any fuel from the queue length up
    gives the same result. *)
Lemma processQueue_loop_fuel U fuel1 fuel2 h :
  (length (requestQueue h) <= fuel1)%nat ->
  (length (requestQueue h) <= fuel2)%nat ->
  processQueue_loop U fuel1 h = processQueue_loop U fuel2 h.
Proof.
  revert fuel2 h. induction fuel1 as [|fuel1 IH]; intros fuel2 h H1 H2.
  - destruct (requestQueue h) eqn:Hq; simpl in H1; [|lia].
    destruct fuel2; simpl; unfold bind, gets; simpl; by rewrite Hq.
  - destruct fuel2 as [|fuel2].
    + destruct (requestQueue h) eqn:Hq; simpl in H2; [|lia].
      simpl; unfold bind, gets; simpl; by rewrite Hq.
    + simpl. unfold bind at 1 4, gets at 1 2. simpl.
      destruct (pop (requestQueue h)) as [[x rest]|] eqn:Hpop; [|reflexivity].
      apply pop_Some in Hpop.
      match goal with
      | |- (let (_, _) := ?m1 h in _) = (let (_, _) := ?m2 h in _) =>
          assert (m1 h = m2 h) as ->; [|reflexivity]
      end.
      apply bind_congr; intros _ _. apply bind_congr; intros _ _.
      rewrite after_modify.
      apply IH; rewrite httpRequest_queue;
        destruct h; simpl in *; subst; rewrite length_app in *; simpl in *; lia.
Qed.

Lemma processQueue_sends U impl h :
  requestImplementation h = Some impl ->
  processQueue U h
  = (Normal Null, set_requestQueue [] h, map (replay U) (rev (requestQueue h))).
Proof.
  intros Himpl. rewrite processQueue_unfold.
  by apply (processQueue_loop_sends U impl).
Qed.

(** Without a request implementation the first round throws, after the
    pop. *)
Lemma processQueue_no_implementation U h :
  requestImplementation h = None ->
  processQueue U h
  = match pop (requestQueue h) with
    | None => (Normal Null, h, [])
    | Some (_, rest) => (TypeError "requestImplementation", set_requestQueue rest h, [])
    end.
Proof.
  intros Himpl. rewrite processQueue_unfold.
  destruct h as [ri st n tbl q l mv pe cv]; simpl in *. subst ri.
  destruct q as [|x q _] using rev_ind; [reflexivity|].
  rewrite length_app. simpl. replace (length q + 1)%nat with (S (length q)) by lia.
  simpl. unfold bind, gets. simpl. rewrite pop_snoc. reflexivity.
Qed.

Lemma sent_ids_app ev1 ev2 : sent_ids (ev1 ++ ev2) = sent_ids ev1 ++ sent_ids ev2.
Proof. apply omap_app. Qed.

Lemma known_back h h1 ev r :
  Grows h h1 ev -> known h1 r ->
  known h r \/ nextId h <= IRequest.id r < nextId h1.
Proof.
  intros [Hn Ht Hq _] [Hin|[k Hk]].
  - by apply Hq.
  - destruct (Ht k r Hk) as [?|[? ->]]; [left; right; eauto|by right].
Qed.

Global Instance Grows_composable : Composable Grows.
Proof.
  split.
  - intros h. split; [lia|auto|by left; left|].
    intros i Hi. simpl in Hi. by apply elem_of_nil in Hi.
  - intros h h1 h2 ev1 ev2 H1 H2.
    pose proof (grows_nextId _ _ _ H1). pose proof (grows_nextId _ _ _ H2).
    split.
    + lia.
    + intros k r Hk.
      destruct (grows_table _ _ _ H2 k r Hk) as [Hk1|[? ?]]; [|right; split; [lia|done]].
      destruct (grows_table _ _ _ H1 k r Hk1) as [?|[? ?]]; [by left|right; split; [lia|done]].
    + intros r Hr.
      destruct (grows_queue _ _ _ H2 r Hr) as [Hk|?]; [|right; lia].
      destruct (known_back _ _ _ _ H1 Hk) as [?|?]; [by left|right; lia].
    + intros i Hi. rewrite sent_ids_app in Hi. apply elem_of_app in Hi as [Hi|Hi].
      * destruct (grows_sent _ _ _ H1 i Hi) as [?|?]; [by left|right; lia].
      * destruct (grows_sent _ _ _ H2 i Hi) as [(r & Hk & <-)|?]; [|right; lia].
        destruct (known_back _ _ _ _ H1 Hk) as [?|?]; [left; eauto|right; lia].
Qed.

(** A step that allocates nothing, stores nothing new and sends nothing. *)
Lemma Grows_idle h h' ev :
  nextId h' = nextId h ->
  (forall k r, idCallbackHash h' !! k = Some r -> idCallbackHash h !! k = Some r) ->
  (forall r, r ∈ requestQueue h' -> known h r) ->
  sent_ids ev = [] ->
  Grows h h' ev.
Proof.
  intros Hn Ht Hq Hs. split; [lia|auto|auto|].
  intros i Hi. rewrite Hs in Hi. by apply elem_of_nil in Hi.
Qed.

Ltac within_step :=
  match goal with
  | |- within _ (bind nextId_postincrement _) _ => fail 1
  | |- within _ (bind (gets _) _) _ =>
      apply (within_bind _);
      [apply (within_gets _)
      |let v := fresh "v" in
       let Hv := fresh "Hv" in
       intros v Hv; apply completion_gets in Hv; rewrite after_gets; subst v]
  | |- within _ (bind _ _) _ => apply (within_bind _); [|intros ? _]
  | |- within _ (ret _) _ => apply (within_ret _)
  | |- within _ (throw _) _ => apply (within_throw _)
  | |- within _ (if ?c then _ else _) _ => destruct c eqn:?
  | |- within _ (match ?c with _ => _ end) _ => destruct c eqn:?
  end.

Section GrowsMethods.

Variable U : Utils.

Lemma modify_idle f h :
  nextId (f h) = nextId h ->
  idCallbackHash (f h) = idCallbackHash h ->
  requestQueue (f h) = requestQueue h ->
  within Grows (modify f) h.
Proof.
  intros Hn Ht Hq. apply Grows_idle; simpl; [done| | |done].
  - intros k r. change (after (modify f) h) with (f h). by rewrite Ht.
  - intros r. change (after (modify f) h) with (f h). rewrite Hq. by left.
Qed.

Lemma emit_idle e h :
  sent_ids [e] = [] -> within Grows (emit e) h.
Proof. intros He. apply Grows_idle; simpl; [done|done|by left|done]. Qed.

Lemma delete_grows k h :
  within Grows
    (modify (fun h => set_idCallbackHash (delete k (idCallbackHash h)) h)) h.
Proof.
  apply Grows_idle; simpl; [done| |by left|done].
  intros k' r. unfold after; simpl. rewrite lookup_delete_Some. tauto.
Qed.

(** Sending a request the handler holds. *)
Lemma httpRequest_known m p d cb r sid h :
  known h r ->
  within Grows (httpRequest m p d cb (IRequest.id r) sid) h.
Proof.
  intros Hk. unfold within, after, events, httpRequest, the_requestImplementation,
    bind, gets, ret, emit, throw. simpl.
  destruct (requestImplementation h); simpl.
  - split; [lia|auto|by left; left|].
    intros i Hi. simpl in Hi. apply list_elem_of_singleton in Hi as ->. left; eauto.
  - apply composable_refl.
Qed.

(** Taking an id from the counter, storing the new request under it and
    what follows, as long as that respects [Grows] with the request
    in the table. *)
Lemma allocate_grows {A} (mk_request : N -> IRequest.t) (k : N -> Exec A) h :
  (forall n, IRequest.id (mk_request n) = n) ->
  (forall h1, nextId h1 = nextId h + 1 ->
              idCallbackHash h1 !! nextId h = Some (mk_request (nextId h)) ->
              within Grows (k (nextId h)) h1) ->
  within Grows
    (let* requestId := nextId_postincrement in
     modify (fun h => set_idCallbackHash
               (<[requestId := mk_request requestId]> (idCallbackHash h)) h) >>
     k requestId) h.
Proof.
  intros Hid Hk.
  set (h1 := set_idCallbackHash (<[nextId h := mk_request (nextId h)]> (idCallbackHash h))
               (set_nextId (nextId h + 1) h)).
  assert (Grows h h1 []) as Hstore.
  { split; simpl; [lia| |by left; left|].
    - intros k' r. rewrite lookup_insert_Some. intros [[<- <-]|[_ ?]]; [|by left].
      right. rewrite Hid. split; [lia|done].
    - intros i Hi. by apply elem_of_nil in Hi. }
  specialize (Hk h1). unfold within in *.
  assert (idCallbackHash h1 !! nextId h = Some (mk_request (nextId h))) as Hin
    by (simpl; apply lookup_insert_eq).
  specialize (Hk eq_refl Hin).
  pose proof (composable_trans _ _ _ _ _ Hstore Hk) as Hall.
  unfold after, events, bind, nextId_postincrement, gets, modify, ret in *.
  simpl in *. fold h1.
  destruct (k (nextId h) h1) as [[c h2] ev2]. simpl in *. exact Hall.
Qed.

Lemma checkVersion_grows h : within Grows checkVersion h.
Proof.
  unfold checkVersion.
  apply (allocate_grows
           (fun n => IRequest.mk n HTTP_METHOD.GET "/connect/info/version" None None)
           (fun n => httpRequest HTTP_METHOD.GET "/connect/info/version" None
                       (Some CheckVersionCallback) n None >> ret Undefined));
    [done|].
  intros h1 _ Hin. within_step; [|within_step].
  apply (httpRequest_known _ _ _ _
           (IRequest.mk (nextId h) HTTP_METHOD.GET "/connect/info/version" None None)).
  right; eauto.
Qed.

Lemma processQueue_grows h : within Grows (processQueue U) h.
Proof.
  unfold within, after, events.
  destruct (requestImplementation h) as [impl|] eqn:Himpl.
  - rewrite (processQueue_sends U impl h Himpl). simpl.
    split; simpl; [lia|auto| |].
    + intros r Hr. by apply elem_of_nil in Hr.
    + intros i Hi. left. unfold sent_ids in Hi.
      apply list_elem_of_omap in Hi as (e & He & Hi).
      apply list_elem_of_In, in_map_iff in He as (r & <- & Hr). simpl in Hi.
      inversion Hi; subst. exists r. split; [|done].
      left. by apply list_elem_of_In, in_rev.
  - rewrite (processQueue_no_implementation U h Himpl).
    destruct (pop (requestQueue h)) as [[x rest]|] eqn:Hpop; simpl.
    + apply pop_Some in Hpop. apply Grows_idle; simpl; [done|auto| |done].
      intros r Hr. left. rewrite Hpop. apply elem_of_app. by left.
    + apply composable_refl.
Qed.

Lemma changeConnectStatus_grows s h : within Grows (changeConnectStatus U s) h.
Proof.
  unfold changeConnectStatus.
  within_step; [by apply modify_idle|].
  repeat within_step;
    auto using processQueue_grows, checkVersion_grows, emit_idle.
Qed.

(** The update-required request of [checkVersionCallback]. *)
Lemma update_require_grows h :
  within Grows
    (let* requestId := nextId_postincrement in
     let* min := gets minVersion in
     modify (fun h => set_idCallbackHash
       (<[requestId := IRequest.mk requestId HTTP_METHOD.POST
                         "/connect/update/require" None None]>
          (idCallbackHash h)) h) >>
     httpRequest HTTP_METHOD.POST "/connect/update/require"
       (Some (update_require_body U min)) None requestId (Some (SESSION_ID U)) >>
     ret Undefined) h.
Proof.
  eapply within_ext;
    [|apply (allocate_grows
        (fun n => IRequest.mk n HTTP_METHOD.POST "/connect/update/require" None None)
        (fun n =>
           httpRequest HTTP_METHOD.POST "/connect/update/require"
             (Some (update_require_body U (minVersion h))) None n
             (Some (SESSION_ID U)) >>
           ret Undefined) h); [done|]].
  - unfold bind, nextId_postincrement, gets, modify, ret. simpl.
    by destruct (httpRequest _ _ _ _ _ _ _) as [[[?|?] ?] ?].
  - intros h1 _ Hin. repeat within_step.
    apply (httpRequest_known _ _ _ _
             (IRequest.mk _ HTTP_METHOD.POST "/connect/update/require" None None)).
    right; eauto.
Qed.

Lemma version_gate_grows h : within Grows (version_gate U) h.
Proof.
  unfold version_gate.
  repeat within_step;
    auto using changeConnectStatus_grows, update_require_grows.
  by apply modify_idle.
Qed.

Lemma checkVersionCallback_grows httpCode response requestId h :
  within Grows (checkVersionCallback U httpCode response requestId) h.
Proof.
  unfold checkVersionCallback.
  within_step; [apply delete_grows|].
  repeat within_step; auto using version_gate_grows.
  by apply modify_idle.
Qed.

Lemma the_callbacks_idle r h : within Grows (the_callbacks r) h.
Proof. unfold the_callbacks. repeat within_step. Qed.

Lemma handleResponse_grows httpCode response requestId h :
  within Grows (handleResponse U httpCode response requestId) h.
Proof.
  unfold handleResponse.
  repeat within_step;
    auto using changeConnectStatus_grows, the_callbacks_idle, emit_idle,
      delete_grows.
  - by apply modify_idle.
  - apply Grows_idle; simpl; [done|auto| |done].
    intros r. unfold after; simpl. rewrite elem_of_app, list_elem_of_singleton.
    intros [?| ->]; [by left|right; eauto].
  - by apply modify_idle.
Qed.

Lemma addStatusListener_grows callback h :
  within Grows (addStatusListener callback) h.
Proof. unfold addStatusListener. repeat within_step. by apply modify_idle. Qed.

Lemma start_grows method path data sessionId callbacks h :
  within Grows (start method path data sessionId callbacks) h.
Proof.
  unfold start.
  do 2 within_step; [within_step|].
  apply (allocate_grows
    (fun n => IRequest.mk n method path data (Some (prepare_callbacks callbacks)))
    (fun n =>
       let* status := gets connectStatus in
       (if decide (status = DEGRADED) then checkVersion else ret Undefined) >>
       let* status := gets connectStatus in
       if decide (status = RUNNING) then
         httpRequest method path (Raw <$> data) (Some HandleResponse) n
           (Some sessionId) >>
         ret Null
       else
         modify (fun h => set_requestQueue
           (requestQueue h ++
            [IRequest.mk n method path data (Some (prepare_callbacks callbacks))]) h) >>
         ret Null)); [done|].
  intros h1 Hnext Hin.
  do 2 within_step.
  { within_step; [apply checkVersion_grows|within_step]. }
  assert (known (after (if decide (connectStatus h1 = DEGRADED)
                        then checkVersion else ret Undefined) h1)
            (IRequest.mk (nextId h) method path data
               (Some (prepare_callbacks callbacks)))) as Hknown.
  { right. exists (nextId h).
    destruct (decide (connectStatus h1 = DEGRADED)); [|exact Hin].
    unfold after, checkVersion, nextId_postincrement, httpRequest,
      the_requestImplementation, bind, gets, modify, ret, emit, throw. simpl.
    assert (nextId h1 <> nextId h) as Hne by lia.
    destruct (requestImplementation h1); simpl; by rewrite lookup_insert_ne. }
  repeat within_step.
  - by apply (httpRequest_known _ _ _ _
                (IRequest.mk (nextId h) method path data
                   (Some (prepare_callbacks callbacks)))).
  - apply Grows_idle; simpl; [done|auto| |done].
    intros r. unfold after at 1; simpl. rewrite elem_of_app, list_elem_of_singleton.
    intros [?| ->]; [by left|exact Hknown].
Qed.

Lemma stopRequests_grows h : within Grows (stopRequests U) h.
Proof.
  unfold stopRequests, the_requestImplementation.
  within_step; [by apply modify_idle|].
  repeat within_step; auto using emit_idle.
Qed.

Lemma setRequestImpl_grows impl h : within Grows (setRequestImpl U impl) h.
Proof.
  unfold setRequestImpl.
  within_step; [by apply modify_idle|].
  repeat within_step; auto using emit_idle.
Qed.

Lemma setHttpRequestImpl_grows options h :
  within Grows (setHttpRequestImpl U options) h.
Proof.
  unfold setHttpRequestImpl, startInitTimeout.
  repeat within_step; auto using emit_idle, setRequestImpl_grows.
Qed.

Lemma init_grows options h : within Grows (init U options) h.
Proof.
  unfold init.
  within_step; [apply changeConnectStatus_grows|].
  within_step; [by apply modify_idle|].
  repeat within_step; auto using emit_idle, setHttpRequestImpl_grows.
  by apply modify_idle.
Qed.

Lemma detectExtension_timedout_grows options h :
  within Grows (detectExtension_timedout U options) h.
Proof.
  unfold detectExtension_timedout, startInitTimeout.
  repeat within_step;
    auto using emit_idle, setHttpRequestImpl_grows, setRequestImpl_grows,
      changeConnectStatus_grows.
Qed.

Lemma initializeTimeoutCallback_grows h :
  within Grows (initializeTimeoutCallback U) h.
Proof.
  unfold initializeTimeoutCallback.
  repeat within_step; auto using changeConnectStatus_grows.
Qed.

(** Every call on the handler respects [Grows]. *)
Lemma call_grows op h : within Grows (call U op) h.
Proof.
  destruct op; simpl;
    auto using start_grows, handleResponse_grows, checkVersion_grows,
      checkVersionCallback_grows, changeConnectStatus_grows,
      addStatusListener_grows, init_grows, detectExtension_timedout_grows,
      initializeTimeoutCallback_grows, stopRequests_grows.
  unfold detectExtension_success.
  repeat within_step; auto using setRequestImpl_grows.
Qed.

End GrowsMethods.

Lemma new_RequestHandler_consistent status0 :
  consistent (new_RequestHandler status0).
Proof.
  split; simpl.
  - intros k r Hk. by rewrite lookup_empty in Hk.
  - intros r Hr. by apply elem_of_nil in Hr.
Qed.

Lemma Grows_consistent h h' ev : Grows h h' ev -> consistent h -> consistent h'.
Proof.
  intros HG [Ht Hq]. pose proof (grows_nextId _ _ _ HG) as Hn.
  assert (forall r, known h r -> IRequest.id r < nextId h) as Hknown.
  { intros r [Hr|[k Hk]]; [by apply Hq|]. by destruct (Ht k r Hk) as [-> ?]. }
  split.
  - intros k r Hk. destruct (grows_table _ _ _ HG k r Hk) as [Hold|[? ?]].
    + destruct (Ht k r Hold). split; [done|lia].
    + split; [done|lia].
  - intros r Hr. destruct (grows_queue _ _ _ HG r Hr) as [Hk|?]; [|lia].
    specialize (Hknown r Hk). lia.
Qed.

Lemma run_grows U ops h : Grows h (fst (run U ops h)) (snd (run U ops h)).
Proof.
  revert h. induction ops as [|op ops IH]; intros h; simpl.
  - apply composable_refl.
  - specialize (IH (after (call U op) h)).
    destruct (run U ops (after (call U op) h)) as [h' ev]. simpl in *.
    eapply composable_trans; [apply call_grows|exact IH].
Qed.

Lemma run_consistent U ops h :
  consistent h -> consistent (fst (run U ops h)).
Proof. apply Grows_consistent with (ev := snd (run U ops h)), run_grows. Qed.


(** ** Replay: only a transition to RUNNING sends queued requests *)

Global Instance Same_status_composable : Composable Same_status.
Proof.
  split; unfold Same_status; [done|]. intros h h1 h2 _ _. congruence.
Qed.

Global Instance Quiet_composable lo : Composable (Quiet lo).
Proof.
  split.
  - intros h Hlo. split; [|done]. split; [done|done|].
    intros i Hi. by apply elem_of_nil in Hi.
  - intros h h1 h2 ev1 ev2 H1 H2 Hlo.
    destruct (H1 Hlo) as [[Hn1 Hq1 Hs1] Hst1].
    destruct (H2 Hn1) as [[Hn2 Hq2 Hs2] Hst2].
    split; [|congruence]. split; [done|by etrans|].
    intros i Hi. rewrite sent_ids_app in Hi.
    apply elem_of_app in Hi as [?|?]; auto.
Qed.

(** Sequencing with different relations on the two sides. *)
Lemma within_seq (R1 R2 R3 : RequestHandler -> RequestHandler -> list Event -> Prop)
    {A B} (m : Exec A) (k : A -> Exec B) h :
  (forall h h1 h2 ev1 ev2, R1 h h1 ev1 -> R2 h1 h2 ev2 -> R3 h h2 (ev1 ++ ev2)) ->
  (forall h h1 ev1, R1 h h1 ev1 -> R3 h h1 ev1) ->
  within R1 m h ->
  (forall v, completion m h = Normal v -> within R2 (k v) (after m h)) ->
  within R3 (bind m k) h.
Proof.
  unfold within, after, events, completion, bind. intros Hseq Hweak Hm Hk.
  destruct (m h) as [[[v|e] h1] ev1]; simpl in *; [|by apply Hweak].
  specialize (Hk v eq_refl).
  destruct (k v h1) as [[c h2] ev2]; simpl in *. eauto.
Qed.

Lemma Quiet_Unless lo h h' ev : Quiet lo h h' ev -> Unless_running lo h h' ev.
Proof.
  intros HQ Hlo. destruct (HQ Hlo) as [HC _].
  split; [apply HC|by right].
Qed.

Lemma quiet_unless lo {A} (m : Exec A) h :
  within (Quiet lo) m h -> within (Unless_running lo) m h.
Proof. apply Quiet_Unless. Qed.

Lemma unless_then_quiet lo {A B} (m : Exec A) (k : A -> Exec B) h :
  within (Unless_running lo) m h ->
  (forall v, completion m h = Normal v -> within (Quiet lo) (k v) (after m h)) ->
  within (Unless_running lo) (bind m k) h.
Proof.
  apply within_seq; [|done].
  intros h0 h1 h2 ev1 ev2 H1 H2 Hlo.
  destruct (H1 Hlo) as [Hn1 Hor]. destruct (H2 Hn1) as [[Hn2 Hq2 Hs2] Hst2].
  split; [done|]. destruct Hor as [Hrun|[_ Hq1 Hs1]]; [left; congruence|right].
  split; [done|by etrans|].
  intros i Hi. rewrite sent_ids_app in Hi. apply elem_of_app in Hi as [?|?]; auto.
Qed.

Lemma quiet_then_unless lo {A B} (m : Exec A) (k : A -> Exec B) h :
  within (Quiet lo) m h ->
  (forall v, completion m h = Normal v -> within (Unless_running lo) (k v) (after m h)) ->
  within (Unless_running lo) (bind m k) h.
Proof.
  apply within_seq; [|apply Quiet_Unless].
  intros h0 h1 h2 ev1 ev2 H1 H2 Hlo.
  destruct (H1 Hlo) as [[Hn1 Hq1 Hs1] Hst1]. destruct (H2 Hn1) as [Hn2 Hor].
  split; [done|]. destruct Hor as [Hrun|[_ Hq2 Hs2]]; [by left|right].
  split; [done|by etrans|].
  intros i Hi. rewrite sent_ids_app in Hi. apply elem_of_app in Hi as [?|?]; auto.
Qed.

Lemma quiet_modify lo f h :
  nextId (f h) = nextId h ->
  requestQueue (f h) = requestQueue h ->
  connectStatus (f h) = connectStatus h ->
  within (Quiet lo) (modify f) h.
Proof.
  intros Hn Hq Hs Hlo. unfold after, events; simpl.
  split; [|done]. split; [lia|by rewrite Hq|].
  intros i Hi. by apply elem_of_nil in Hi.
Qed.

Lemma quiet_push lo r h :
  within (Quiet lo)
    (modify (fun h => set_requestQueue (requestQueue h ++ [r]) h)) h.
Proof.
  intros Hlo. unfold after, events; simpl.
  split; [|done]. split; [done|by apply prefix_app_r|].
  intros i Hi. by apply elem_of_nil in Hi.
Qed.

Lemma quiet_emit lo e h : sent_ids [e] = [] -> within (Quiet lo) (emit e) h.
Proof.
  intros He Hlo. unfold after, events; simpl.
  split; [|done]. split; [done|done|].
  intros i Hi. rewrite He in Hi. by apply elem_of_nil in Hi.
Qed.

Lemma quiet_httpRequest lo m p d cb i sid h :
  lo <= i -> within (Quiet lo) (httpRequest m p d cb i sid) h.
Proof.
  intros Hi Hlo.
  unfold after, events, httpRequest, the_requestImplementation, bind, gets, ret,
    emit, throw. simpl.
  destruct (requestImplementation h); simpl; (split; [|done]); (split; [done|done|]).
  - intros j Hj. simpl in Hj. by apply list_elem_of_singleton in Hj as ->.
  - intros j Hj. by apply elem_of_nil in Hj.
Qed.

(** Taking an id from the counter: what follows may send it. *)
Lemma quiet_allocate lo {A} (k : N -> Exec A) h :
  (lo <= nextId h ->
   within (Quiet lo) (k (nextId h)) (set_nextId (nextId h + 1) h)) ->
  within (Quiet lo) (bind nextId_postincrement k) h.
Proof.
  intros Hk Hlo. specialize (Hk Hlo).
  unfold within, Quiet, after, events, bind, nextId_postincrement, gets, modify, ret
    in *. simpl in *.
  destruct (k (nextId h) (set_nextId (nextId h + 1) h)) as [[c h2] ev2].
  simpl in *. destruct Hk as [[Hn Hq Hs] Hst]; [lia|].
  split; [|done]. by split.
Qed.

Create HintDb quiet.

#[local] Hint Resolve quiet_push quiet_emit quiet_httpRequest : quiet.
#[local] Hint Extern 1 (within (Quiet _) (modify _) _) =>
  apply quiet_modify; reflexivity : quiet.
#[local] Hint Extern 1 (sent_ids _ = []) => reflexivity : quiet.

Ltac quiet_step :=
  match goal with
  | |- within (Quiet _) (bind nextId_postincrement _) _ =>
      apply quiet_allocate; intros ?; cbv beta
  | _ => within_step
  end.

Ltac quiet := repeat quiet_step; eauto with quiet.

Section Replay.

Variable U : Utils.

Lemma the_callbacks_quiet lo r h : within (Quiet lo) (the_callbacks r) h.
Proof. unfold the_callbacks. quiet. Qed.

Lemma the_requestImplementation_quiet lo h :
  within (Quiet lo) the_requestImplementation h.
Proof. unfold the_requestImplementation. quiet. Qed.

Lemma checkVersion_quiet lo h : within (Quiet lo) checkVersion h.
Proof. unfold checkVersion. quiet. Qed.

Lemma start_quiet lo method path data sessionId callbacks h :
  within (Quiet lo) (start method path data sessionId callbacks) h.
Proof. unfold start. quiet; apply checkVersion_quiet. Qed.

Lemma setRequestImpl_quiet lo impl h : within (Quiet lo) (setRequestImpl U impl) h.
Proof. unfold setRequestImpl. quiet. Qed.

Lemma setHttpRequestImpl_quiet lo options h :
  within (Quiet lo) (setHttpRequestImpl U options) h.
Proof.
  unfold setHttpRequestImpl, startInitTimeout. quiet. apply setRequestImpl_quiet.
Qed.

Lemma after_modify_then {A} f (k : Exec A) h :
  after (modify f >> k) h = after k (f h).
Proof. unfold after, bind, modify. simpl. by destruct (k (f h)) as [[? ?] ?]. Qed.

Lemma events_modify_then {A} f (k : Exec A) h :
  events (modify f >> k) h = events k (f h).
Proof. unfold events, bind, modify. simpl. by destruct (k (f h)) as [[? ?] ?]. Qed.

Lemma processQueue_same_status h : within Same_status (processQueue U) h.
Proof.
  unfold within, Same_status, after.
  destruct (requestImplementation h) as [impl|] eqn:Himpl.
  - by rewrite (processQueue_sends U impl h Himpl).
  - rewrite (processQueue_no_implementation U h Himpl).
    by destruct (pop (requestQueue h)) as [[? ?]|].
Qed.

Lemma same_status_modify f h :
  connectStatus (f h) = connectStatus h -> within Same_status (modify f) h.
Proof. done. Qed.

Lemma same_status_emit e h : within Same_status (emit e) h.
Proof. done. Qed.

Lemma checkVersion_same_status h : within Same_status checkVersion h.
Proof.
  unfold checkVersion, nextId_postincrement, httpRequest, the_requestImplementation.
  repeat within_step; auto using same_status_emit; by apply same_status_modify.
Qed.

Lemma after_assignment_same_status h : within Same_status (after_assignment U) h.
Proof.
  unfold after_assignment.
  repeat within_step;
    auto using processQueue_same_status, checkVersion_same_status, same_status_emit.
Qed.

Lemma changeConnectStatus_status s h :
  connectStatus (after (changeConnectStatus U s) h) = s.
Proof.
  unfold changeConnectStatus. fold (after_assignment U).
  rewrite after_modify_then.
  apply (after_assignment_same_status (set_connectStatus s h)).
Qed.

Lemma after_assignment_quiet lo h :
  connectStatus h <> RUNNING -> within (Quiet lo) (after_assignment U) h.
Proof.
  intros Hs. unfold after_assignment.
  do 2 quiet_step.
  { destruct (decide (connectStatus h = RUNNING)); [done|]. quiet. }
  quiet. apply checkVersion_quiet.
Qed.

Lemma changeConnectStatus_unless lo s h :
  within (Unless_running lo) (changeConnectStatus U s) h.
Proof.
  intros Hlo. split.
  { pose proof (grows_nextId _ _ _ (changeConnectStatus_grows U s h)). lia. }
  destruct (decide (s = RUNNING)) as [->|Hs].
  - left. apply changeConnectStatus_status.
  - right. unfold changeConnectStatus. fold (after_assignment U).
    rewrite after_modify_then, events_modify_then.
    destruct (after_assignment_quiet lo (set_connectStatus s h) Hs Hlo) as [[Hn Hq Hsent] _].
    by split.
Qed.

Ltac unless_step :=
  match goal with
  | |- within (Unless_running _) (changeConnectStatus _ _) _ =>
      apply changeConnectStatus_unless
  | |- within (Unless_running _) (bind (gets _) _) _ =>
      apply quiet_then_unless;
      [apply (within_gets _)
      |let v := fresh "v" in
       let Hv := fresh "Hv" in
       intros v Hv; apply completion_gets in Hv; rewrite after_gets; subst v]
  | |- within (Unless_running _) (bind _ _) _ =>
      first [apply quiet_then_unless; [solve [quiet]|intros ? _]
            |apply unless_then_quiet; [|intros ? _; try solve [quiet]]]
  | |- within (Unless_running _) (if ?c then _ else _) _ => destruct c eqn:?
  | |- within (Unless_running _) (match ?c with _ => _ end) _ => destruct c eqn:?
  | |- within (Unless_running _) _ _ => apply quiet_unless; solve [quiet]
  end.

#[local] Hint Resolve the_callbacks_quiet the_requestImplementation_quiet
  checkVersion_quiet start_quiet setRequestImpl_quiet setHttpRequestImpl_quiet
  : quiet.

Lemma update_require_quiet lo h :
  within (Quiet lo)
    (let* requestId := nextId_postincrement in
     let* min := gets minVersion in
     modify (fun h => set_idCallbackHash
       (<[requestId := IRequest.mk requestId HTTP_METHOD.POST
                         "/connect/update/require" None None]>
          (idCallbackHash h)) h) >>
     httpRequest HTTP_METHOD.POST "/connect/update/require"
       (Some (update_require_body U min)) None requestId (Some (SESSION_ID U)) >>
     ret Undefined) h.
Proof. quiet. Qed.

Lemma version_gate_unless lo h : within (Unless_running lo) (version_gate U) h.
Proof. unfold version_gate. repeat unless_step. Qed.

Lemma checkVersionCallback_unless lo httpCode response requestId h :
  within (Unless_running lo) (checkVersionCallback U httpCode response requestId) h.
Proof.
  unfold checkVersionCallback.
  repeat unless_step; apply version_gate_unless.
Qed.

Lemma handleResponse_unless lo httpCode response requestId h :
  within (Unless_running lo) (handleResponse U httpCode response requestId) h.
Proof. unfold handleResponse. repeat unless_step. Qed.

Lemma stopRequests_unless lo h : within (Unless_running lo) (stopRequests U) h.
Proof.
  unfold stopRequests.
  apply unless_then_quiet; [|intros ? _; quiet].
  intros Hlo. split; [done|]. right. split; [done|done|].
  intros i Hi. by apply elem_of_nil in Hi.
Qed.

Lemma init_unless lo options h : within (Unless_running lo) (init U options) h.
Proof. unfold init. repeat unless_step. Qed.

Lemma detectExtension_timedout_unless lo options h :
  within (Unless_running lo) (detectExtension_timedout U options) h.
Proof.
  unfold detectExtension_timedout, startInitTimeout. repeat unless_step.
Qed.

Lemma initializeTimeoutCallback_unless lo h :
  within (Unless_running lo) (initializeTimeoutCallback U) h.
Proof. unfold initializeTimeoutCallback. repeat unless_step. Qed.

(** Every call either leaves the handler RUNNING or is calm. *)
Lemma call_unless lo op h : within (Unless_running lo) (call U op) h.
Proof.
  destruct op; simpl;
    auto using checkVersionCallback_unless, handleResponse_unless,
      stopRequests_unless, init_unless, detectExtension_timedout_unless,
      initializeTimeoutCallback_unless, changeConnectStatus_unless;
    apply quiet_unless; unfold addStatusListener, detectExtension_success; quiet.
Qed.

Lemma never_running_calm ops h :
  never_running U ops h ->
  Calm (nextId h) h (fst (run U ops h)) (snd (run U ops h)).
Proof.
  assert (forall lo, lo <= nextId h -> never_running U ops h ->
                     Calm lo h (fst (run U ops h)) (snd (run U ops h))) as Hgen;
    [|by apply Hgen].
  revert h. induction ops as [|op ops IH]; intros h lo Hlo Hnever; simpl.
  - split; [done|done|]. intros i Hi. by apply elem_of_nil in Hi.
  - destruct Hnever as [Hop Hnever].
    destruct (call_unless lo op h Hlo) as [Hn [?|[_ Hq Hs]]]; [done|].
    specialize (IH (after (call U op) h) lo Hn Hnever).
    destruct (run U ops (after (call U op) h)) as [h' ev]. simpl in *.
    destruct IH as [Hn' Hq' Hs'].
    split; [done|by etrans|].
    intros i Hi. rewrite sent_ids_app in Hi. apply elem_of_app in Hi as [?|?]; auto.
Qed.

End Replay.

(** ** Running a method step by step *)

Lemma bind_modify {B} f (k : unit -> Exec B) h : bind (modify f) k h = k tt (f h).
Proof. unfold bind, modify. by destruct (k tt (f h)) as [[? ?] ?]. Qed.

Lemma bind_gets {A B} (f : RequestHandler -> A) (k : A -> Exec B) h :
  bind (gets f) k h = k (f h) h.
Proof. unfold bind, gets. by destruct (k (f h) h) as [[? ?] ?]. Qed.

Lemma bind_ret {A B} (v : A) (k : A -> Exec B) h : bind (ret v) k h = k v h.
Proof. unfold bind, ret. by destruct (k v h) as [[? ?] ?]. Qed.

Lemma bind_throw {A B} e (k : A -> Exec B) h :
  bind (throw e) k h = (TypeError e, h, []).
Proof. reflexivity. Qed.

Lemma bind_normal {A B} (m : Exec A) (k : A -> Exec B) h v h1 ev1 :
  m h = (Normal v, h1, ev1) ->
  bind m k h = (fst (fst (k v h1)), snd (fst (k v h1)), ev1 ++ snd (k v h1)).
Proof. unfold bind. intros ->. by destruct (k v h1) as [[? ?] ?]. Qed.

Lemma bind_error {A B} (m : Exec A) (k : A -> Exec B) h e h1 ev1 :
  m h = (TypeError e, h1, ev1) -> bind m k h = (TypeError e, h1, ev1).
Proof. unfold bind. by intros ->. Qed.

Lemma bind_bind {A B C} (m : Exec A) (k : A -> Exec B) (k' : B -> Exec C) h :
  bind (bind m k) k' h = bind m (fun v => bind (k v) k') h.
Proof.
  unfold bind. destruct (m h) as [[[v|e] h1] ev1]; [|done].
  destruct (k v h1) as [[[w|e] h2] ev2]; [|done].
  destruct (k' w h2) as [[c h3] ev3]. by rewrite app_assoc.
Qed.

Lemma httpRequest_sends impl m p d cb i sid h :
  requestImplementation h = Some impl ->
  httpRequest m p d cb i sid h = (Normal tt, h, [HttpRequest m p d cb i sid]).
Proof.
  intros Himpl. unfold httpRequest, the_requestImplementation.
  rewrite bind_bind, bind_gets, Himpl. reflexivity.
Qed.

Lemma httpRequest_throws m p d cb i sid h :
  requestImplementation h = None ->
  httpRequest m p d cb i sid h = (TypeError "requestImplementation", h, []).
Proof.
  intros Himpl. unfold httpRequest, the_requestImplementation.
  rewrite bind_bind, bind_gets, Himpl. reflexivity.
Qed.

Ltac fields :=
  cbn [requestImplementation connectStatus nextId idCallbackHash requestQueue
       statusListener minVersion pollingRequestErrors connectVersion
       set_requestImplementation set_connectStatus set_nextId
       set_idCallbackHash set_requestQueue set_statusListener set_minVersion
       set_pollingRequestErrors set_connectVersion fst snd] in *.

(** One step of a method whose next action is determined. *)
Ltac exec_step :=
  first [rewrite bind_bind | rewrite bind_modify | rewrite bind_gets
        | rewrite bind_ret | rewrite bind_throw];
  cbv beta; fields.

Ltac exec := repeat exec_step.

Section Transitions.

Variable U : Utils.

(** [changeConnectStatus(RUNNING)] with a request implementation in place:
    the queue is replayed newest first and emptied, then the listener is
    told. *)
Lemma changeConnectStatus_RUNNING impl h :
  requestImplementation h = Some impl ->
  changeConnectStatus U RUNNING h
  = (Normal Null,
     set_requestQueue [] (set_connectStatus RUNNING h),
     map (replay U) (rev (requestQueue h)) ++ listener_events h RUNNING).
Proof.
  intros Himpl. unfold changeConnectStatus. exec.
  destruct (decide (RUNNING = RUNNING)) as [_|?]; [|done].
  erewrite bind_normal; [|apply (processQueue_sends U impl); exact Himpl]. fields.
  exec. destruct (decide (RUNNING = DEGRADED)) as [?|_]; [done|].
  exec. unfold listener_events.
  destruct (statusListener h); exec; reflexivity.
Qed.

(** A status other than RUNNING and DEGRADED: the listener is told, and
    that is all. *)
Lemma changeConnectStatus_plain s h :
  s <> RUNNING -> s <> DEGRADED ->
  changeConnectStatus U s h
  = (Normal Null, set_connectStatus s h, listener_events h s).
Proof.
  intros H1 H2. unfold changeConnectStatus. exec.
  destruct (decide (s = RUNNING)); [done|]. exec.
  destruct (decide (s = DEGRADED)); [done|]. exec.
  unfold listener_events. destruct (statusListener h); exec; reflexivity.
Qed.

Lemma checkVersion_sends impl h :
  requestImplementation h = Some impl ->
  checkVersion h
  = (Normal Undefined,
     set_idCallbackHash (<[nextId h := version_request (nextId h)]> (idCallbackHash h))
       (set_nextId (nextId h + 1) h),
     [HttpRequest HTTP_METHOD.GET "/connect/info/version" None
        (Some CheckVersionCallback) (nextId h) None]).
Proof.
  intros Himpl. unfold checkVersion, nextId_postincrement. exec.
  erewrite bind_normal; [|apply (httpRequest_sends impl); exact Himpl]. reflexivity.
Qed.

(** DEGRADED: a version check goes out and the listener is not told. *)
Lemma changeConnectStatus_DEGRADED impl h :
  requestImplementation h = Some impl ->
  changeConnectStatus U DEGRADED h
  = (Normal Undefined,
     set_idCallbackHash (<[nextId h := version_request (nextId h)]> (idCallbackHash h))
       (set_nextId (nextId h + 1) (set_connectStatus DEGRADED h)),
     [HttpRequest HTTP_METHOD.GET "/connect/info/version" None
        (Some CheckVersionCallback) (nextId h) None]).
Proof.
  intros Himpl. unfold changeConnectStatus. exec.
  destruct (decide (DEGRADED = RUNNING)) as [?|_]; [done|]. exec.
  destruct (decide (DEGRADED = DEGRADED)) as [_|?]; [|done].
  erewrite bind_normal; [|apply (checkVersion_sends impl); exact Himpl]. reflexivity.
Qed.

End Transitions.

(** ** Queueing and replay *)

Section Queueing.

Variable U : Utils.

Lemma start_queues method path data sessionId callbacks h :
  connectStatus h <> RUNNING -> connectStatus h <> STOPPED ->
  connectStatus h <> DEGRADED ->
  start method path data sessionId callbacks h
  = (Normal Null,
     set_requestQueue (requestQueue h ++ [new_request h method path data callbacks])
       (set_idCallbackHash
          (<[nextId h := new_request h method path data callbacks]> (idCallbackHash h))
          (set_nextId (nextId h + 1) h)),
     []).
Proof.
  intros H1 H2 H3. unfold start, nextId_postincrement. exec.
  destruct (decide (connectStatus h = STOPPED)); [done|]. exec.
  destruct (decide (connectStatus h = DEGRADED)); [done|]. exec.
  destruct (decide (connectStatus h = RUNNING)); [done|]. exec.
  reflexivity.
Qed.

Lemma start_queues_DEGRADED impl method path data sessionId callbacks h :
  connectStatus h = DEGRADED -> requestImplementation h = Some impl ->
  start method path data sessionId callbacks h
  = (Normal Null,
     set_requestQueue (requestQueue h ++ [new_request h method path data callbacks])
       (set_idCallbackHash
          (<[nextId h + 1 := version_request (nextId h + 1)]>
             (<[nextId h := new_request h method path data callbacks]>
                (idCallbackHash h)))
          (set_nextId (nextId h + 1 + 1) h)),
     [HttpRequest HTTP_METHOD.GET "/connect/info/version" None
        (Some CheckVersionCallback) (nextId h + 1) None]).
Proof.
  intros Hs Himpl. unfold start, nextId_postincrement. exec. rewrite Hs.
  destruct (decide (DEGRADED = STOPPED)) as [?|_]; [done|]. exec. rewrite Hs.
  destruct (decide (DEGRADED = DEGRADED)) as [_|?]; [|done].
  erewrite bind_normal; [|apply (checkVersion_sends impl); exact Himpl]. fields.
  exec. rewrite Hs.
  destruct (decide (DEGRADED = RUNNING)) as [?|_]; [done|]. exec.
  reflexivity.
Qed.

(** C1, as the code has it.  A request submitted via [start] while the
    status is neither RUNNING nor STOPPED (and, in DEGRADED, with a request
    implementation to carry the version check) is appended to the queue and
    stays pending; no [httpRequest] is made for it by [start], nor by any
    later sequence of calls none of which leaves the handler RUNNING, and it
    stays queued meanwhile.  When [changeConnectStatus] is given RUNNING on
    a handler with a request implementation, every queued request is sent
    once, newest first, and the queue is left empty. *)
Theorem queued_until_running method path data sessionId callbacks h :
  connectStatus h <> RUNNING ->
  connectStatus h <> STOPPED ->
  (connectStatus h = DEGRADED -> requestImplementation h <> None) ->
  let requestInfo := new_request h method path data callbacks in
  let call_start := start method path data sessionId callbacks in
  completion call_start h = Normal Null
  /\ requestQueue (after call_start h) = requestQueue h ++ [requestInfo]
  /\ idCallbackHash (after call_start h) !! nextId h = Some requestInfo
  /\ (nextId h ∉ sent_ids (events call_start h))
  /\ (forall ops,
        never_running U ops (after call_start h) ->
        requestInfo ∈ requestQueue (fst (run U ops (after call_start h)))
        /\ nextId h ∉ sent_ids (snd (run U ops (after call_start h))))
  /\ (forall h' impl,
        requestImplementation h' = Some impl ->
        changeConnectStatus U RUNNING h'
        = (Normal Null,
           set_requestQueue [] (set_connectStatus RUNNING h'),
           map (replay U) (rev (requestQueue h')) ++ listener_events h' RUNNING)).
Proof.
  intros Hrun Hstop Hdeg requestInfo call_start.
  assert (completion call_start h = Normal Null
          /\ requestQueue (after call_start h) = requestQueue h ++ [requestInfo]
          /\ idCallbackHash (after call_start h) !! nextId h = Some requestInfo
          /\ (nextId h ∉ sent_ids (events call_start h))
          /\ nextId h < nextId (after call_start h)) as (Hc & Hq & Ht & Hs & Hn).
  { unfold completion, after, events, call_start, requestInfo.
    destruct (decide (connectStatus h = DEGRADED)) as [Hd|Hd].
    - destruct (requestImplementation h) as [impl|] eqn:Himpl; [|by destruct (Hdeg Hd)].
      rewrite (start_queues_DEGRADED impl) by done. fields.
      repeat split; [|by apply not_elem_of_cons; split; [lia|apply not_elem_of_nil]|lia].
      rewrite lookup_insert_ne by lia. apply lookup_insert_eq.
    - rewrite start_queues by done. fields.
      repeat split; [apply lookup_insert_eq|apply not_elem_of_nil|lia]. }
  repeat split; try done.
  - destruct (never_running_calm U ops _ H) as [_ Hpre _].
    destruct Hpre as [suffix ->]. rewrite Hq.
    rewrite !elem_of_app, list_elem_of_singleton. auto.
  - intros Hin.
    destruct (never_running_calm U ops _ H) as [_ _ Hsent].
    specialize (Hsent _ Hin). lia.
  - intros h' impl. apply changeConnectStatus_RUNNING.
Qed.

End Queueing.

Lemma queued_until_running_witness :
  connectStatus (Sample.handler INITIALIZING) <> RUNNING
  /\ connectStatus (Sample.handler INITIALIZING) <> STOPPED
  /\ requestQueue
       (after (start HTTP_METHOD.GET "/connect/info/ping" None "session-1" NoCallbacks)
          (Sample.handler INITIALIZING))
     = [IRequest.mk 0 HTTP_METHOD.GET "/connect/info/ping" None
          (Some {| success := NoopFn; error := NoopFn |})].
Proof.
  assert (connectStatus (Sample.handler INITIALIZING) <> RUNNING) as H1 by done.
  assert (connectStatus (Sample.handler INITIALIZING) <> STOPPED) as H2 by done.
  assert (connectStatus (Sample.handler INITIALIZING) = DEGRADED ->
          requestImplementation (Sample.handler INITIALIZING) <> None) as H3 by done.
  split; [exact H1|]. split; [exact H2|].
  destruct (queued_until_running Sample.utils HTTP_METHOD.GET "/connect/info/ping"
              None "session-1" NoCallbacks (Sample.handler INITIALIZING) H1 H2 H3)
    as (_ & Hq & _).
  exact Hq.
Defined.

(** C1 as stated fails for STOPPED, which is a status other than RUNNING:
    [start] returns null and queues nothing. *)
Lemma start_while_stopped_queues_nothing :
  connectStatus (Sample.handler STOPPED) <> RUNNING
  /\ start HTTP_METHOD.GET "/connect/info/ping" None "session-1" NoCallbacks
       (Sample.handler STOPPED)
     = (Normal Null, Sample.handler STOPPED, [])
  /\ requestQueue (Sample.handler STOPPED) = [].
Proof. split; [done|]. split; reflexivity. Qed.

(** ** The polling debounce *)

Section Debounce.

Variable U : Utils.

Lemma indexOf_prefix (query : string) :
  indexOf (polling_path ++ query)%string polling_path = 0%Z.
Proof.
  unfold indexOf, polling_path. destruct query; vm_compute; reflexivity.
Qed.

(** A connection error that is not debounced: the request goes back to the
    queue and the caller hears nothing. *)
Lemma handleResponse_requeued response requestId requestInfo h :
  connectStatus h <> STOPPED ->
  idCallbackHash h !! requestId = Some requestInfo ->
  (pollingRequestErrors h <? MAX_POLLING_ERRORS)
  && (indexOf (IRequest.path requestInfo) polling_path >? 0)%Z = false ->
  handleResponse U 0 response requestId h
  = (Normal Null, set_requestQueue (requestQueue h ++ [requestInfo]) h, []).
Proof.
  intros Hs Hk Hcond. unfold handleResponse. exec.
  destruct (decide (connectStatus h = STOPPED)); [done|]. exec.
  rewrite Hk. change (0 =? 0)%Z with true. cbv iota. exec.
  rewrite Hcond. exec. reflexivity.
Qed.

(** A debounced connection error: the error callback is called, the
    counter goes up, and nothing else changes. *)
Lemma handleResponse_debounced response requestId requestInfo callbacks h :
  connectStatus h <> STOPPED ->
  idCallbackHash h !! requestId = Some requestInfo ->
  IRequest.callbacks requestInfo = Some callbacks ->
  pollingRequestErrors h < MAX_POLLING_ERRORS ->
  (0 < indexOf (IRequest.path requestInfo) polling_path)%Z ->
  handleResponse U 0 response requestId h
  = (Normal Undefined,
     set_pollingRequestErrors (pollingRequestErrors h + 1) h,
     [Invoke (error callbacks) EmptyObject]).
Proof.
  intros Hs Hk Hcb Herr Hidx. unfold handleResponse. exec.
  destruct (decide (connectStatus h = STOPPED)); [done|]. exec.
  rewrite Hk. change (0 =? 0)%Z with true. cbv iota. exec.
  apply N.ltb_lt in Herr. rewrite Herr.
  apply Z.gtb_lt in Hidx. rewrite Hidx. cbn [andb]. exec.
  unfold the_callbacks. rewrite Hcb. exec. reflexivity.
Qed.

Lemma set_requestQueue_twice q1 q2 h :
  set_requestQueue q2 (set_requestQueue q1 h) = set_requestQueue q2 h.
Proof. reflexivity. Qed.

(** Connection errors that are not debounced pile the request up in the
    queue, one entry each. *)
Lemma requeued_each_time n response requestId requestInfo h :
  connectStatus h <> STOPPED ->
  idCallbackHash h !! requestId = Some requestInfo ->
  (indexOf (IRequest.path requestInfo) polling_path >? 0)%Z = false ->
  run U (replicate n (HandleResponseOp 0 response requestId)) h
  = (set_requestQueue (requestQueue h ++ replicate n requestInfo) h, []).
Proof.
  intros Hs Hk Hidx. revert h Hs Hk.
  induction n as [|n IH]; intros h Hs Hk.
  - cbn [replicate run]. rewrite app_nil_r. by destruct h.
  - cbn [replicate run call]. unfold after, events.
    rewrite (handleResponse_requeued response requestId requestInfo h)
      by (try done; rewrite Hidx; apply andb_false_r).
    fields. rewrite IH by done. fields.
    by rewrite set_requestQueue_twice, <- app_assoc.
Qed.

(** C2, at the path the SDK polls.  For a pending request whose path is
    [/connect/transfers/activity], with or without a query string, a
    connection error (httpCode 0) is never debounced: whatever the error
    counter, the request is pushed onto the queue and the error callback is
    not called; four such errors in a row queue it four times and call
    nothing.  The path starts with the debounced text, so [indexOf] is 0,
    and the test asks for more than 0. *)
Theorem polling_path_never_debounced response requestId requestInfo query h :
  connectStatus h <> STOPPED ->
  idCallbackHash h !! requestId = Some requestInfo ->
  IRequest.path requestInfo = (polling_path ++ query)%string ->
  handleResponse U 0 response requestId h
  = (Normal Null, set_requestQueue (requestQueue h ++ [requestInfo]) h, [])
  /\ run U (replicate 4 (HandleResponseOp 0 response requestId)) h
     = (set_requestQueue (requestQueue h ++ replicate 4 requestInfo) h, []).
Proof.
  intros Hs Hk Hpath.
  assert ((indexOf (IRequest.path requestInfo) polling_path >? 0)%Z = false) as Hidx
    by by rewrite Hpath, indexOf_prefix.
  split.
  - apply handleResponse_requeued; [done|done|].
    rewrite Hidx. apply andb_false_r.
  - by apply requeued_each_time.
Qed.

(** Where the debounced text sits further into the path the debounce does
    what the spec describes: of four connection errors in a row the first
    three call the error callback and the fourth queues the request. *)
Lemma debounce_three_then_queue response requestId requestInfo callbacks h :
  connectStatus h <> STOPPED ->
  idCallbackHash h !! requestId = Some requestInfo ->
  IRequest.callbacks requestInfo = Some callbacks ->
  pollingRequestErrors h = 0 ->
  (0 < indexOf (IRequest.path requestInfo) polling_path)%Z ->
  run U (replicate 4 (HandleResponseOp 0 response requestId)) h
  = (set_requestQueue (requestQueue h ++ [requestInfo]) (set_pollingRequestErrors 3 h),
     replicate 3 (Invoke (error callbacks) EmptyObject)).
Proof.
  intros Hs Hk Hcb Herr Hidx.
  assert (h = set_pollingRequestErrors 0 h) as Hh by (destruct h; simpl in *; by subst).
  rewrite Hh at 1.
  cbn [replicate run call]. unfold after, events.
  set (handle := handleResponse U 0 response requestId).
  assert (forall n, n < MAX_POLLING_ERRORS ->
            handle (set_pollingRequestErrors n h)
            = (Normal Undefined, set_pollingRequestErrors (n + 1) h,
               [Invoke (error callbacks) EmptyObject])) as Hstep.
  { intros n Hn.
    exact (handleResponse_debounced response requestId requestInfo callbacks
             (set_pollingRequestErrors n h) Hs Hk Hcb Hn Hidx). }
  assert (handle (set_pollingRequestErrors 3 h)
          = (Normal Null,
             set_requestQueue (requestQueue h ++ [requestInfo])
               (set_pollingRequestErrors 3 h), [])) as Hlast.
  { exact (handleResponse_requeued response requestId requestInfo
             (set_pollingRequestErrors 3 h) Hs Hk eq_refl). }
  rewrite (Hstep 0) by done. fields. change (0 + 1) with 1.
  rewrite (Hstep 1) by done. fields. change (1 + 1) with 2.
  rewrite (Hstep 2) by done. fields. change (2 + 1) with 3.
  rewrite Hlast. reflexivity.
Qed.

(** C8, on the debounced branch.  When [handleResponse] debounces a
    connection error it calls the request's error callback and returns
    without removing the request from [idCallbackHash]: the entry is still
    there afterwards. *)
Theorem debounced_error_keeps_entry response requestId requestInfo callbacks h :
  connectStatus h <> STOPPED ->
  idCallbackHash h !! requestId = Some requestInfo ->
  IRequest.callbacks requestInfo = Some callbacks ->
  pollingRequestErrors h < MAX_POLLING_ERRORS ->
  (0 < indexOf (IRequest.path requestInfo) polling_path)%Z ->
  events (handleResponse U 0 response requestId) h
  = [Invoke (error callbacks) EmptyObject]
  /\ idCallbackHash (after (handleResponse U 0 response requestId) h) !! requestId
     = Some requestInfo.
Proof.
  intros Hs Hk Hcb Herr Hidx. unfold events, after.
  rewrite (handleResponse_debounced response requestId requestInfo callbacks h)
    by done.
  by split.
Qed.

End Debounce.

Lemma polling_path_never_debounced_witness :
  connectStatus (Sample.pending RUNNING Sample.activity) <> STOPPED
  /\ idCallbackHash (Sample.pending RUNNING Sample.activity) !! 0 = Some Sample.activity
  /\ handleResponse Sample.utils 0 "" 0 (Sample.pending RUNNING Sample.activity)
     = (Normal Null, Sample.queued RUNNING Sample.activity, []).
Proof.
  assert (connectStatus (Sample.pending RUNNING Sample.activity) <> STOPPED) as H1
    by done.
  assert (idCallbackHash (Sample.pending RUNNING Sample.activity) !! 0
          = Some Sample.activity) as H2 by apply lookup_singleton_eq.
  split; [exact H1|]. split; [exact H2|].
  destruct (polling_path_never_debounced Sample.utils "" 0 Sample.activity ""
              (Sample.pending RUNNING Sample.activity) H1 H2 eq_refl) as [Hone _].
  exact Hone.
Defined.

Lemma debounced_error_keeps_entry_witness :
  connectStatus (Sample.pending RUNNING Sample.prefixed_activity) <> STOPPED
  /\ (0 < indexOf (IRequest.path Sample.prefixed_activity) polling_path)%Z
  /\ events (handleResponse Sample.utils 0 "" 0)
       (Sample.pending RUNNING Sample.prefixed_activity)
     = [Invoke (UserFn 2) EmptyObject]
  /\ idCallbackHash
       (after (handleResponse Sample.utils 0 "" 0)
          (Sample.pending RUNNING Sample.prefixed_activity)) !! 0
     = Some Sample.prefixed_activity.
Proof.
  assert (connectStatus (Sample.pending RUNNING Sample.prefixed_activity) <> STOPPED)
    as H1 by done.
  assert (idCallbackHash (Sample.pending RUNNING Sample.prefixed_activity) !! 0
          = Some Sample.prefixed_activity) as H2 by apply lookup_singleton_eq.
  assert (0 < indexOf (IRequest.path Sample.prefixed_activity) polling_path)%Z
    as H3 by (vm_compute; reflexivity).
  split; [exact H1|]. split; [exact H3|].
  exact (debounced_error_keeps_entry Sample.utils "" 0 Sample.prefixed_activity
           {| success := UserFn 1; error := UserFn 2 |}
           (Sample.pending RUNNING Sample.prefixed_activity)
           H1 H2 eq_refl eq_refl H3).
Defined.

(** ** Request identities *)

(** C3.  Over the life of a handler, from the state its field initialisers
    give it and through any sequence of calls, a pending request is stored
    under its own id, that id was taken from the counter [nextId], which
    never decreases, and no two pending requests share an id: if a request
    in the table at one moment and a request in the table at that or a
    later moment have the same id, they are the same request under the
    same key. *)
Theorem request_ids_unique U status0 ops1 ops2 k1 k2 r1 r2 :
  let h1 := fst (run U ops1 (new_RequestHandler status0)) in
  let h2 := fst (run U ops2 h1) in
  idCallbackHash h1 !! k1 = Some r1 ->
  idCallbackHash h2 !! k2 = Some r2 ->
  (IRequest.id r1 = k1 /\ k1 < nextId h1)
  /\ (IRequest.id r2 = k2 /\ k2 < nextId h2)
  /\ nextId h1 <= nextId h2
  /\ (IRequest.id r1 = IRequest.id r2 -> k1 = k2 /\ r1 = r2).
Proof.
  intros h1 h2 Hk1 Hk2.
  assert (consistent h1) as Hc1
    by apply run_consistent, new_RequestHandler_consistent.
  assert (consistent h2) as Hc2 by by apply run_consistent.
  pose proof (run_grows U ops2 h1) as HG. fold h2 in HG.
  destruct (table_ids _ Hc1 k1 r1 Hk1) as [Hid1 Hlt1].
  destruct (table_ids _ Hc2 k2 r2 Hk2) as [Hid2 Hlt2].
  repeat split; try done; try apply (grows_nextId _ _ _ HG).
  - destruct (grows_table _ _ _ HG k2 r2 Hk2) as [Hold|[[? ?] ?]]; [|lia].
    congruence.
  - destruct (grows_table _ _ _ HG k2 r2 Hk2) as [Hold|[[? ?] ?]]; [|lia].
    assert (k1 = k2) by congruence. subst. congruence.
Qed.

Lemma request_ids_unique_witness :
  idCallbackHash
    (fst (run Sample.utils Sample.first_calls (new_RequestHandler INITIALIZING))) !! 1
  = Some (version_request 1)
  /\ idCallbackHash
       (fst (run Sample.utils Sample.later_calls
               (fst (run Sample.utils Sample.first_calls
                       (new_RequestHandler INITIALIZING))))) !! 2
     = Some (IRequest.mk 2 HTTP_METHOD.POST "/connect/transfers/activity" (Some "{}")
               (Some {| success := NoopFn; error := NoopFn |}))
  /\ nextId (fst (run Sample.utils Sample.first_calls (new_RequestHandler INITIALIZING)))
     <= nextId
          (fst (run Sample.utils Sample.later_calls
                  (fst (run Sample.utils Sample.first_calls
                          (new_RequestHandler INITIALIZING))))).
Proof.
  assert (idCallbackHash
            (fst (run Sample.utils Sample.first_calls
                    (new_RequestHandler INITIALIZING))) !! 1
          = Some (version_request 1)) as H1 by (vm_compute; reflexivity).
  assert (idCallbackHash
            (fst (run Sample.utils Sample.later_calls
                    (fst (run Sample.utils Sample.first_calls
                            (new_RequestHandler INITIALIZING))))) !! 2
          = Some (IRequest.mk 2 HTTP_METHOD.POST "/connect/transfers/activity"
                    (Some "{}") (Some {| success := NoopFn; error := NoopFn |})))
    as H2 by (vm_compute; reflexivity).
  split; [exact H1|]. split; [exact H2|].
  destruct (request_ids_unique Sample.utils INITIALIZING Sample.first_calls
              Sample.later_calls 1 2 _ _ H1 H2) as (_ & _ & Hnext & _).
  exact Hnext.
Defined.

(** ** Version comparison *)

Lemma lex_compare_refl a : lex_compare a a = Eq.
Proof. induction a as [|x a IH]; simpl; [done|]. by rewrite N.compare_refl. Qed.

Lemma lex_compare_antisym a b : lex_compare b a = CompOpp (lex_compare a b).
Proof.
  revert b. induction a as [|x a IH]; intros [|y b]; simpl; try done.
  rewrite (N.compare_antisym x y). destruct (x ?= y); simpl; auto.
Qed.

Lemma lex_compare_app a b z :
  length a = length b ->
  lex_compare (a ++ z) (b ++ z) = lex_compare a b.
Proof.
  revert b. induction a as [|x a IH]; intros [|y b] Hlen; simpl in *; try done.
  - apply lex_compare_refl.
  - destruct (x ?= y); auto.
Qed.

Lemma pad_length n l : (length l <= n)%nat -> length (pad n l) = n.
Proof. intros Hn. unfold pad. rewrite length_app, repeat_length. lia. Qed.

Lemma pad_more n n' l :
  (length l <= n)%nat -> (n <= n')%nat ->
  pad n' l = pad n l ++ repeat 0 (n' - n)%nat.
Proof.
  intros H1 H2. unfold pad. rewrite <- app_assoc. f_equal.
  rewrite <- repeat_app. f_equal. lia.
Qed.

(** The comparison does not depend on how far both sides are padded. *)
Lemma lex_compare_pad n n' a b :
  (length a <= n)%nat -> (length b <= n)%nat -> (n <= n')%nat ->
  lex_compare (pad n' a) (pad n' b) = lex_compare (pad n a) (pad n b).
Proof.
  intros Ha Hb Hn. rewrite (pad_more n n' a), (pad_more n n' b) by done.
  apply lex_compare_app. by rewrite !pad_length.
Qed.

Lemma pad_snoc_zero n l :
  (length l < n)%nat -> pad n (l ++ [0]) = pad n l.
Proof.
  intros Hn. unfold pad. rewrite <- app_assoc, length_app. simpl. f_equal.
  replace (n - length l)%nat with (S (n - (length l + 1)))%nat by lia.
  reflexivity.
Qed.

Lemma split_on_nonempty c s : split_on c s <> [].
Proof.
  destruct s as [|a s]; simpl; [done|].
  destruct (Ascii.eqb a c); [done|]. by destruct (split_on c s).
Qed.

Lemma split_on_trailing_zero v :
  split_on "." (v ++ ".0")%string = split_on "." v ++ ["0"%string].
Proof.
  induction v as [|a v IH]; [reflexivity|].
  change (String a v ++ ".0")%string with (String a (v ++ ".0")%string).
  cbn [split_on]. rewrite IH.
  destruct (Ascii.eqb a "."); [reflexivity|].
  pose proof (split_on_nonempty "." v).
  by destruct (split_on "." v).
Qed.

Lemma segments_trailing_zero v : segments (v ++ ".0")%string = segments v ++ [0].
Proof. unfold segments. by rewrite split_on_trailing_zero, map_app. Qed.

Lemma version_compare_trailing_zero_l a b :
  version_compare (a ++ ".0")%string b = version_compare a b.
Proof.
  unfold version_compare. rewrite segments_trailing_zero.
  set (sa := segments a). set (sb := segments b).
  rewrite length_app. simpl.
  rewrite pad_snoc_zero by lia.
  apply lex_compare_pad; lia.
Qed.

Lemma version_compare_antisym a b :
  version_compare b a = CompOpp (version_compare a b).
Proof.
  unfold version_compare. rewrite Nat.max_comm. apply lex_compare_antisym.
Qed.

Lemma version_compare_trailing_zero_r a b :
  version_compare a (b ++ ".0")%string = version_compare a b.
Proof.
  rewrite (version_compare_antisym (b ++ ".0")%string a).
  rewrite version_compare_trailing_zero_l.
  symmetry. apply version_compare_antisym.
Qed.

Lemma versionLessThan_irrefl v : versionLessThan v v = false.
Proof. unfold versionLessThan, version_compare. by rewrite lex_compare_refl. Qed.

Lemma versionLessThan_asym a b :
  versionLessThan a b = true -> versionLessThan b a = false.
Proof.
  unfold versionLessThan. rewrite (version_compare_antisym a b).
  by destruct (version_compare a b).
Qed.

(** *** The comparison on dotted-numeric strings *)

Lemma digit_of_char d : digit (digit_char d) = Some (digit_value d).
Proof. by destruct d. Qed.

Lemma digit_char_not_dot d : Ascii.eqb (digit_char d) "." = false.
Proof. by destruct d. Qed.

Lemma parse_digits_numeral acc ds :
  parse_digits acc (numeral ds)
  = fold_left (fun acc d => 10 * acc + digit_value d) ds acc.
Proof.
  revert acc. induction ds as [|d ds IH]; intros acc; [done|].
  cbn [numeral parse_digits fold_left]. by rewrite digit_of_char, IH.
Qed.

Lemma split_on_numeral ds : split_on "." (numeral ds) = [numeral ds].
Proof.
  induction ds as [|d ds IH]; [done|].
  cbn [numeral split_on]. by rewrite digit_char_not_dot, IH.
Qed.

Lemma split_on_numeral_dot ds rest :
  split_on "." (numeral ds ++ String "." rest)
  = numeral ds :: split_on "." rest.
Proof.
  induction ds as [|d ds IH]; [done|].
  change (numeral (d :: ds) ++ String "." rest)%string
    with (String (digit_char d) (numeral ds ++ String "." rest)%string).
  cbn [split_on]. by rewrite digit_char_not_dot, IH.
Qed.

Lemma segments_dotted ds v :
  segments (dotted (ds :: v)) = map numeral_value (ds :: v).
Proof.
  revert ds. induction v as [|ds' v IH]; intros ds.
  - unfold segments. cbn [dotted]. rewrite split_on_numeral. cbn [map].
    by rewrite parse_digits_numeral.
  - unfold segments in *. cbn [dotted]. rewrite split_on_numeral_dot.
    cbn [map]. rewrite parse_digits_numeral. f_equal. apply IH.
Qed.

Lemma nth_pad n l i : nth i (pad n l) 0 = nth i l 0.
Proof.
  unfold pad. destruct (Nat.lt_ge_cases i (length l)) as [Hlt|Hge].
  - by rewrite app_nth1.
  - rewrite app_nth2 by done. rewrite (nth_overflow l) by done.
    apply nth_repeat.
Qed.

Lemma lex_compare_Lt a b :
  length a = length b ->
  lex_compare a b = Lt
  <-> exists i, nth i a 0 < nth i b 0
                /\ forall j, (j < i)%nat -> nth j a 0 = nth j b 0.
Proof.
  revert b. induction a as [|x a IH]; intros [|y b] Hlen; try done.
  - split; [done|]. intros (i & Hlt & _). destruct i; simpl in Hlt; lia.
  - simpl in Hlen. cbn [lex_compare].
    destruct (x ?= y) eqn:Hxy.
    + apply N.compare_eq in Hxy as ->. rewrite IH by lia. split.
      * intros (i & Hlt & Heq). exists (S i). split; [done|].
        intros [|j] Hj; [done|]. apply Heq. lia.
      * intros ([|i] & Hlt & Heq); [simpl in Hlt; lia|].
        exists i. split; [done|]. intros j Hj. apply (Heq (S j)). lia.
    + apply N.compare_lt_iff in Hxy. split; [|done]. intros _.
      exists 0%nat. split; [done|]. intros j Hj. lia.
    + apply N.compare_gt_iff in Hxy. split; [done|].
      intros ([|i] & Hlt & Heq); [simpl in Hlt; lia|].
      specialize (Heq 0%nat ltac:(lia)). simpl in Heq. lia.
Qed.

Lemma versionLessThan_segments a b :
  versionLessThan a b = true
  <-> exists i, nth i (segments a) 0 < nth i (segments b) 0
                /\ forall j, (j < i)%nat ->
                             nth j (segments a) 0 = nth j (segments b) 0.
Proof.
  unfold versionLessThan, version_compare.
  set (n := Nat.max _ _).
  assert (lex_compare (pad n (segments a)) (pad n (segments b)) = Lt
          <-> exists i, nth i (segments a) 0 < nth i (segments b) 0
                /\ forall j, (j < i)%nat ->
                             nth j (segments a) 0 = nth j (segments b) 0) as <-.
  { rewrite lex_compare_Lt by (rewrite !pad_length; lia).
    by setoid_rewrite nth_pad. }
  by destruct (lex_compare _ _).
Qed.

Lemma segment_at_dotted i v : nth i (segments (dotted v)) 0 = segment_at i v.
Proof.
  unfold segment_at. destruct v as [|ds v]; [by destruct i as [|[|i]]|].
  by rewrite segments_dotted.
Qed.

(** C7.  The comparison of the version gate is a dotted-numeric compare.
    On every pair of version strings written as numerals separated by
    dots, [versionLessThan] holds exactly when, at the first position
    where the two differ, the integer of the left segment is the smaller
    one, a segment that a version does not have counting as 0: each
    segment is compared as an integer (3.9 is below 3.10), whatever the
    number of segments and of digits.  Equal versions are "not less
    than", appending [.0] to either side changes nothing, 3.8.0 against
    3.8 is not less than, and 3.7.9 against 3.8.0 is less than. *)
Theorem versionLessThan_dotted_numeric :
  versionLessThan "3.8.0" "3.8" = false
  /\ versionLessThan "3.7.9" "3.8.0" = true
  /\ versionLessThan "3.9" "3.10" = true
  /\ (forall a b, versionLessThan (dotted a) (dotted b) = true <-> below a b)
  /\ (forall v, versionLessThan v v = false)
  /\ (forall a b, versionLessThan (a ++ ".0")%string b = versionLessThan a b)
  /\ (forall a b, versionLessThan a (b ++ ".0")%string = versionLessThan a b).
Proof.
  repeat split; try reflexivity.
  - intros Hlt. apply versionLessThan_segments in Hlt as (i & Hi & Hj).
    exists i. rewrite <- !segment_at_dotted. split; [done|].
    intros j Hlt. rewrite <- !segment_at_dotted. by apply Hj.
  - intros (i & Hi & Hj). apply versionLessThan_segments.
    exists i. rewrite !segment_at_dotted. split; [done|].
    intros j Hlt. rewrite !segment_at_dotted. by apply Hj.
  - apply versionLessThan_irrefl.
  - intros a b. unfold versionLessThan. by rewrite version_compare_trailing_zero_l.
  - intros a b. unfold versionLessThan. by rewrite version_compare_trailing_zero_r.
Qed.

(** ** The version gate *)

Section VersionGate.

Variable U : Utils.

Lemma effective_minimum_max minVersion :
  (effective_minimum minVersion = MIN_SECURE_VERSION
   \/ effective_minimum minVersion = minVersion)
  /\ versionLessThan (effective_minimum minVersion) MIN_SECURE_VERSION = false
  /\ versionLessThan (effective_minimum minVersion) minVersion = false.
Proof.
  unfold effective_minimum.
  destruct (String.eqb minVersion "") eqn:Hempty; simpl.
  - apply String.eqb_eq in Hempty as ->. by repeat split; auto.
  - destruct (versionLessThan minVersion MIN_SECURE_VERSION) eqn:Hlt.
    + repeat split; auto using versionLessThan_irrefl, versionLessThan_asym.
    + repeat split; auto using versionLessThan_irrefl.
Qed.

(** The gate with enforcement on, a request implementation in place and a
    status other than OUTDATED. *)
Lemma version_gate_enforced impl h :
  checkVersionException U = false ->
  requestImplementation h = Some impl ->
  connectStatus h <> OUTDATED ->
  version_gate U h
  = if versionLessThan (connectVersion h) (effective_minimum (minVersion h))
    then (Normal Undefined,
          set_idCallbackHash
            (<[nextId h := update_request (nextId h)]> (idCallbackHash h))
            (set_nextId (nextId h + 1)
               (set_connectStatus OUTDATED
                  (set_minVersion (effective_minimum (minVersion h)) h))),
          listener_events h OUTDATED
          ++ [HttpRequest HTTP_METHOD.POST "/connect/update/require"
                (Some (Stringified
                         [("min_version", effective_minimum (minVersion h));
                          ("sdk_location", SDK_LOCATION U)]))
                None (nextId h) (Some (SESSION_ID U))])
    else (Normal Undefined,
          set_requestQueue []
            (set_connectStatus RUNNING
               (set_minVersion (effective_minimum (minVersion h)) h)),
          map (replay U) (rev (requestQueue h)) ++ listener_events h RUNNING).
Proof.
  intros Hexc Himpl Hstatus.
  destruct h as [ri st n tbl q l mv pe cv]. fields. subst ri.
  unfold version_gate, nextId_postincrement. exec.
  rewrite Hexc. rewrite bool_decide_eq_false_2 by done. cbn [negb andb].
  exec. unfold effective_minimum.
  destruct (String.eqb mv "" || versionLessThan mv MIN_SECURE_VERSION); exec.
  - destruct (versionLessThan cv MIN_SECURE_VERSION).
    + erewrite bind_normal; [|by apply changeConnectStatus_plain]. fields. exec.
      erewrite bind_normal; [|by apply (httpRequest_sends impl)]. reflexivity.
    + erewrite bind_normal; [|by apply (changeConnectStatus_RUNNING U impl)].
      fields. unfold listener_events. fields. by rewrite app_nil_r.
  - destruct (versionLessThan cv mv).
    + erewrite bind_normal; [|by apply changeConnectStatus_plain]. fields. exec.
      erewrite bind_normal; [|by apply (httpRequest_sends impl)]. reflexivity.
    + erewrite bind_normal; [|by apply (changeConnectStatus_RUNNING U impl)].
      fields. unfold listener_events. fields. by rewrite app_nil_r.
Qed.

(** While OUTDATED and enforcing, the gate does nothing. *)
Lemma version_gate_stays_outdated h :
  checkVersionException U = false ->
  connectStatus h = OUTDATED ->
  version_gate U h = (Normal Undefined, h, []).
Proof.
  intros Hexc Hstatus. unfold version_gate. exec.
  rewrite Hexc, Hstatus. reflexivity.
Qed.

(** C4, as the code has it.  When [checkVersionCallback] records a version
    (httpCode 200, no error field) with enforcement on, a request
    implementation in place and the status not already OUTDATED: the
    minimum it enforces is the larger of the caller's [minVersion] and
    3.8.0; if the recorded version is below it the status becomes OUTDATED,
    the listener is told, and a POST to [/connect/update/require] goes out
    with [min_version] the enforced minimum and [sdk_location] the
    configured one; otherwise the status becomes RUNNING. *)
Theorem version_gate_enforces_minimum response requestId impl h :
  checkVersionException U = false ->
  requestImplementation h = Some impl ->
  connectStatus h <> OUTDATED ->
  error_defined (parseJson U response) = false ->
  let detected := version (parseJson U response) in
  let effective := effective_minimum (minVersion h) in
  let check := checkVersionCallback U 200 response requestId in
  (effective = MIN_SECURE_VERSION \/ effective = minVersion h)
  /\ versionLessThan effective MIN_SECURE_VERSION = false
  /\ versionLessThan effective (minVersion h) = false
  /\ connectVersion (after check h) = detected
  /\ minVersion (after check h) = effective
  /\ (versionLessThan detected effective = true ->
      connectStatus (after check h) = OUTDATED
      /\ events check h
         = listener_events h OUTDATED
           ++ [HttpRequest HTTP_METHOD.POST "/connect/update/require"
                 (Some (Stringified [("min_version", effective);
                                     ("sdk_location", SDK_LOCATION U)]))
                 None (nextId h) (Some (SESSION_ID U))])
  /\ (versionLessThan detected effective = false ->
      connectStatus (after check h) = RUNNING).
Proof.
  intros Hexc Himpl Hstatus Herr detected effective check.
  destruct (effective_minimum_max (minVersion h)) as (Hmax1 & Hmax2 & Hmax3).
  assert (check h
          = version_gate U
              (set_connectVersion detected
                 (set_idCallbackHash (delete requestId (idCallbackHash h)) h)))
    as Hcheck.
  { unfold check, checkVersionCallback. exec.
    change (200 =? 200)%Z with true. cbv iota. rewrite Herr. exec. reflexivity. }
  unfold after, events. rewrite Hcheck.
  rewrite (version_gate_enforced impl) by done. fields.
  fold effective. unfold listener_events. fields.
  destruct (versionLessThan detected effective); fields;
    repeat split; try done.
Qed.

End VersionGate.

Lemma version_gate_enforces_minimum_witness :
  connectStatus (Sample.checking INITIALIZING) = INITIALIZING
  /\ minVersion (Sample.checking INITIALIZING) = ""
  /\ connectStatus
       (after (checkVersionCallback Sample.utils 200 (Sample.version_response "3.7.0") 0)
          (Sample.checking INITIALIZING))
     = OUTDATED
  /\ events (checkVersionCallback Sample.utils 200 (Sample.version_response "3.7.0") 0)
       (Sample.checking INITIALIZING)
     = [HttpRequest HTTP_METHOD.POST "/connect/update/require"
          (Some (Stringified
                   [("min_version", "3.8.0");
                    ("sdk_location", "//d3gcli72yxqn2z.cloudfront.net/connect/v4")]))
          None 1 (Some "session-1")].
Proof.
  assert (checkVersionException Sample.utils = false) as H1 by reflexivity.
  assert (requestImplementation (Sample.checking INITIALIZING)
          = Some XMLhttpRequestImplementation) as H2 by reflexivity.
  assert (connectStatus (Sample.checking INITIALIZING) <> OUTDATED) as H3 by done.
  assert (error_defined (parseJson Sample.utils (Sample.version_response "3.7.0")) = false)
    as H4 by (vm_compute; reflexivity).
  split; [reflexivity|]. split; [reflexivity|].
  destruct (version_gate_enforces_minimum Sample.utils
              (Sample.version_response "3.7.0") 0 XMLhttpRequestImplementation
              (Sample.checking INITIALIZING) H1 H2 H3 H4)
    as (_ & _ & _ & _ & _ & Hout & _).
  apply Hout. vm_compute. reflexivity.
Defined.

(** C4 as stated fails once the status is OUTDATED: a recorded version at
    or above the minimum does not bring the status to RUNNING, and a
    recorded version below it sends no update-required request. *)
Lemma outdated_is_kept :
  versionLessThan "3.9.0" (effective_minimum (minVersion (Sample.checking OUTDATED)))
  = false
  /\ connectStatus
       (after (checkVersionCallback Sample.utils 200 (Sample.version_response "3.9.0") 0)
          (Sample.checking OUTDATED))
     = OUTDATED
  /\ versionLessThan "3.7.0" (effective_minimum (minVersion (Sample.checking OUTDATED)))
     = true
  /\ events (checkVersionCallback Sample.utils 200 (Sample.version_response "3.7.0") 0)
       (Sample.checking OUTDATED)
     = [].
Proof. vm_compute. repeat split; reflexivity. Qed.

(** ** The STOPPED gate *)

Section Stopped.

Variable U : Utils.

Lemma start_stopped method path data sessionId callbacks h :
  connectStatus h = STOPPED ->
  start method path data sessionId callbacks h = (Normal Null, h, []).
Proof.
  intros Hs. unfold start. exec. rewrite Hs. reflexivity.
Qed.

Lemma handleResponse_stopped httpCode response requestId h :
  connectStatus h = STOPPED ->
  handleResponse U httpCode response requestId h = (Normal Null, h, []).
Proof.
  intros Hs. unfold handleResponse. exec. rewrite Hs. reflexivity.
Qed.

(** What the two guards achieve.  While the status is STOPPED every call
    to [start] returns null and every call to [handleResponse] returns
    normally, and neither changes the handler (the status stays STOPPED, no
    request is created, the queue is untouched) or reaches the adapter, a
    callback or the listener; the same holds of any sequence of such
    calls. *)
Theorem stopped_gate h :
  connectStatus h = STOPPED ->
  (forall method path data sessionId callbacks,
     start method path data sessionId callbacks h = (Normal Null, h, []))
  /\ (forall httpCode response requestId,
        handleResponse U httpCode response requestId h = (Normal Null, h, []))
  /\ (forall ops, forallb gated ops = true -> run U ops h = (h, [])).
Proof.
  intros Hs. split; [|split].
  - intros. by apply start_stopped.
  - intros. by apply handleResponse_stopped.
  - intros ops. induction ops as [|op ops IH]; [done|].
    cbn [forallb]. intros [Hop Hops]%andb_prop.
    cbn [run]. unfold after, events.
    destruct op; try discriminate Hop; cbn [call].
    + rewrite start_stopped by done. fields. by rewrite IH.
    + rewrite handleResponse_stopped by done. fields. by rewrite IH.
Qed.

End Stopped.

Lemma stopped_gate_witness :
  connectStatus (Sample.queued STOPPED Sample.activity) = STOPPED
  /\ handleResponse Sample.utils 200 "{}" 0 (Sample.queued STOPPED Sample.activity)
     = (Normal Null, Sample.queued STOPPED Sample.activity, []).
Proof.
  assert (connectStatus (Sample.queued STOPPED Sample.activity) = STOPPED) as H
    by reflexivity.
  split; [exact H|].
  destruct (stopped_gate Sample.utils (Sample.queued STOPPED Sample.activity) H)
    as (_ & Hresponse & _).
  apply Hresponse.
Defined.

(** STOPPED does not stay.  After [stopRequests], the initialize timeout
    that [init] armed moves the status to FAILED, and the answer to a
    version check that was under way moves it to RUNNING. *)
Lemma stopped_is_left :
  connectStatus Sample.stopped_early = STOPPED
  /\ connectStatus (after (initializeTimeoutCallback Sample.utils) Sample.stopped_early)
     = FAILED
  /\ connectStatus
       (after (checkVersionCallback Sample.utils 200 (Sample.version_response "3.9.0") 0)
          Sample.stopped_early)
     = RUNNING.
Proof. vm_compute. repeat split; reflexivity. Qed.

(** C5.  The handler does not stay STOPPED as the claim requires:
    [checkVersionCallback] lacks the guard that [handleResponse], the
    other response callback, starts with.  On a stopped handler every
    [handleResponse] is dropped, but the answer to a version check that
    was under way when [stopRequests] was called (a 200 reporting a
    version that passes the gate) sets the status to RUNNING, sends every
    queued request to the adapter and tells the listener. *)
Theorem stopped_left_by_version_answer U response requestId impl h :
  connectStatus h = STOPPED ->
  requestImplementation h = Some impl ->
  checkVersionException U = false ->
  error_defined (parseJson U response) = false ->
  versionLessThan (version (parseJson U response))
    (effective_minimum (minVersion h)) = false ->
  (forall httpCode response' requestId',
     handleResponse U httpCode response' requestId' h = (Normal Null, h, []))
  /\ connectStatus (after (checkVersionCallback U 200 response requestId) h)
     = RUNNING
  /\ requestQueue (after (checkVersionCallback U 200 response requestId) h) = []
  /\ events (checkVersionCallback U 200 response requestId) h
     = map (replay U) (rev (requestQueue h)) ++ listener_events h RUNNING.
Proof.
  intros Hs Himpl Hexc Herr Hversion.
  split; [intros; by apply handleResponse_stopped|].
  assert (checkVersionCallback U 200 response requestId h
          = version_gate U
              (set_connectVersion (version (parseJson U response))
                 (set_idCallbackHash (delete requestId (idCallbackHash h)) h)))
    as Hcheck.
  { unfold checkVersionCallback. exec.
    change (200 =? 200)%Z with true. cbv iota. rewrite Herr. exec. reflexivity. }
  unfold after, events. rewrite Hcheck.
  rewrite (version_gate_enforced U impl) by (fields; congruence). fields.
  rewrite Hversion. fields. unfold listener_events. fields. done.
Qed.

Lemma stopped_left_by_version_answer_witness :
  connectStatus Scenario.stopped_with_backlog = STOPPED
  /\ events (checkVersionCallback Sample.utils 200 (Sample.version_response "3.9.0") 1)
       Scenario.stopped_with_backlog
     = [HttpRequest HTTP_METHOD.GET "/connect/info/ping" None (Some HandleResponse) 0
          (Some "session-1")]
  /\ snd (run Sample.utils
            [CheckVersionCallbackOp 200 (Sample.version_response "3.9.0") 1;
             HandleResponseOp 200 "{}" 0]
            Scenario.stopped_with_backlog)
     = [HttpRequest HTTP_METHOD.GET "/connect/info/ping" None (Some HandleResponse) 0
          (Some "session-1");
        Invoke NoopFn (ParsedResponse (parseJson Sample.utils "{}"))].
Proof.
  split; [reflexivity|]. split; [|vm_compute; reflexivity].
  assert (error_defined (parseJson Sample.utils (Sample.version_response "3.9.0"))
          = false) as Herr by (vm_compute; reflexivity).
  assert (versionLessThan
            (version (parseJson Sample.utils (Sample.version_response "3.9.0")))
            (effective_minimum (minVersion Scenario.stopped_with_backlog))
          = false) as Hversion by (vm_compute; reflexivity).
  destruct (stopped_left_by_version_answer Sample.utils
              (Sample.version_response "3.9.0") 1 XMLhttpRequestImplementation
              Scenario.stopped_with_backlog eq_refl eq_refl eq_refl Herr Hversion)
    as (_ & _ & _ & Hev).
  rewrite Hev. reflexivity.
Defined.

(** ** Listener notification *)

Section Notification.

Variable U : Utils.

Lemma changeConnectStatus_RUNNING_idle h :
  requestQueue h = [] ->
  changeConnectStatus U RUNNING h
  = (Normal Null, set_requestQueue [] (set_connectStatus RUNNING h),
     listener_events h RUNNING).
Proof.
  intros Hq. destruct (requestImplementation h) as [impl|] eqn:Himpl.
  - rewrite (changeConnectStatus_RUNNING U impl) by done. by rewrite Hq.
  - destruct h as [ri st n tbl q l mv pe cv]. fields. subst.
    unfold changeConnectStatus. exec.
    destruct (decide (RUNNING = RUNNING)) as [_|?]; [|done].
    erewrite bind_normal;
      [|by rewrite processQueue_no_implementation; fields]. fields.
    exec. destruct (decide (RUNNING = DEGRADED)) as [?|_]; [done|].
    exec. unfold listener_events. fields.
    destruct l; exec; reflexivity.
Qed.

Lemma changeConnectStatus_DEGRADED_throws h :
  requestImplementation h = None ->
  events (changeConnectStatus U DEGRADED) h = [].
Proof.
  intros Himpl. unfold events, changeConnectStatus. exec.
  destruct (decide (DEGRADED = RUNNING)) as [?|_]; [done|]. exec.
  destruct (decide (DEGRADED = DEGRADED)) as [_|?]; [|done].
  erewrite bind_error; [reflexivity|].
  unfold checkVersion, nextId_postincrement. exec.
  erewrite bind_error; [reflexivity|].
  by rewrite httpRequest_throws.
Qed.

(** C6, as the code has it.  With a listener registered,
    [changeConnectStatus] assigns the new status and, for every status
    except DEGRADED (WAITING included), calls the listener with it before
    returning: for a status other than RUNNING at once and whether or not
    a request implementation has been chosen yet (the INITIALIZING of
    [init] and the EXTENSION_INSTALL of a failed detection are such
    calls), for RUNNING after the replay of the queue, which needs a
    request implementation only when there is something to replay.  For
    DEGRADED the listener is not called: a version check is sent
    instead.  The listener [connect.ts] registers then tells every
    application listener, in registration order, the public status. *)
Theorem listener_notified_unless_degraded s l h :
  statusListener h = Some l ->
  connectStatus (after (changeConnectStatus U s) h) = s
  /\ (s <> RUNNING -> s <> DEGRADED ->
      changeConnectStatus U s h
      = (Normal Null, set_connectStatus s h, [StatusListener l s]))
  /\ (s = RUNNING ->
      requestQueue h = [] \/ requestImplementation h <> None ->
      changeConnectStatus U s h
      = (Normal Null, set_requestQueue [] (set_connectStatus RUNNING h),
         map (replay U) (rev (requestQueue h)) ++ [StatusListener l RUNNING]))
  /\ (s = DEGRADED ->
      (forall l' s',
         ~ In (StatusListener l' s') (events (changeConnectStatus U s) h))
      /\ (forall impl,
            requestImplementation h = Some impl ->
            events (changeConnectStatus U s) h
            = [HttpRequest HTTP_METHOD.GET "/connect/info/version" None
                 (Some CheckVersionCallback) (nextId h) None]))
  /\ (forall c,
        snd (Connect.manageConnectStatus s c)
        = (if bool_decide (s = RUNNING) && Connect.DRAGDROP_ENABLED c
           then [Connect.ConnectHttpRequest HTTP_METHOD.GET
                   "/connect/file/initialize-drag-drop"]
           else [])
          ++ map (fun listener =>
                    Connect.Listener listener Connect.EVENT.STATUS
                      (Connect.connectStatus (fst (Connect.manageConnectStatus s c))))
               (Connect.statusListeners c)).
Proof.
  intros Hl. split; [apply changeConnectStatus_status|].
  split; [|split; [|split]].
  - intros Hrun Hdeg. rewrite changeConnectStatus_plain by done.
    unfold listener_events. by rewrite Hl.
  - intros -> [Hq|Himpl].
    + rewrite changeConnectStatus_RUNNING_idle by done.
      unfold listener_events. by rewrite Hl, Hq.
    + destruct (requestImplementation h) as [impl|] eqn:Hi; [|done].
      rewrite (changeConnectStatus_RUNNING U impl) by done.
      unfold listener_events. by rewrite Hl.
  - intros ->. split.
    + intros l' s' Hin.
      destruct (requestImplementation h) as [impl|] eqn:Hi.
      * unfold events in Hin.
        rewrite (changeConnectStatus_DEGRADED U impl) in Hin by done.
        destruct Hin as [?|[]]. discriminate.
      * by rewrite changeConnectStatus_DEGRADED_throws in Hin.
    + intros impl Hi. unfold events.
      by rewrite (changeConnectStatus_DEGRADED U impl).
  - intros c. unfold Connect.manageConnectStatus. cbn [fst snd].
    unfold Connect.notifyStatusListeners.
    by destruct s, (Connect.connectStatus c).
Qed.

End Notification.

Lemma listener_notified_unless_degraded_witness :
  statusListener (Sample.listening (new_RequestHandler INITIALIZING)) = Some 7
  /\ requestImplementation (Sample.listening (new_RequestHandler INITIALIZING)) = None
  /\ changeConnectStatus Sample.utils INITIALIZING
       (Sample.listening (new_RequestHandler INITIALIZING))
     = (Normal Null,
        set_connectStatus INITIALIZING
          (Sample.listening (new_RequestHandler INITIALIZING)),
        [StatusListener 7 INITIALIZING])
  /\ events (changeConnectStatus Sample.utils RUNNING)
       (Sample.listening (Sample.queued INITIALIZING Sample.activity))
     = [replay Sample.utils Sample.activity; StatusListener 7 RUNNING]
  /\ events (changeConnectStatus Sample.utils WAITING)
       (Sample.listening (Sample.queued INITIALIZING Sample.activity))
     = [StatusListener 7 WAITING].
Proof.
  assert (statusListener (Sample.listening (new_RequestHandler INITIALIZING))
          = Some 7) as H1 by reflexivity.
  assert (statusListener (Sample.listening (Sample.queued INITIALIZING Sample.activity))
          = Some 7) as H2 by reflexivity.
  split; [exact H1|]. split; [reflexivity|]. split; [|split].
  - destruct (listener_notified_unless_degraded Sample.utils INITIALIZING 7 _ H1)
      as (_ & Hplain & _).
    apply Hplain; discriminate.
  - destruct (listener_notified_unless_degraded Sample.utils RUNNING 7 _ H2)
      as (_ & _ & Hrunning & _).
    unfold events. rewrite Hrunning; [reflexivity|reflexivity|].
    right. discriminate.
  - destruct (listener_notified_unless_degraded Sample.utils WAITING 7 _ H2)
      as (_ & Hplain & _).
    unfold events. rewrite Hplain; [reflexivity|discriminate|discriminate].
Defined.

(** C6 as stated fails for DEGRADED: the listener is registered and is not
    called; a version check is sent instead.  (And the replay that RUNNING
    starts with fails, before the listener is reached, when requests are
    queued and no request implementation has been chosen.) *)
Lemma degraded_is_not_announced :
  statusListener (Sample.listening (Sample.handler RUNNING)) = Some 7
  /\ changeConnectStatus Sample.utils DEGRADED (Sample.listening (Sample.handler RUNNING))
     = (Normal Undefined,
        set_connectStatus DEGRADED (Sample.listening (Sample.checking RUNNING)),
        [HttpRequest HTTP_METHOD.GET "/connect/info/version" None
           (Some CheckVersionCallback) 0 None])
  /\ statusListener (Sample.listening Scenario.early) = Some 7
  /\ events (changeConnectStatus Sample.utils RUNNING)
       (Sample.listening Scenario.early)
     = [].
Proof. repeat split; reflexivity. Qed.

(** ** Recovery on a response *)

Section Recovery.

Variable U : Utils.

Lemma after_ext {A} (m m' : Exec A) h : m h = m' h -> after m h = after m' h.
Proof. unfold after. by intros ->. Qed.

Lemma after_bind_same_status {A B} (m : Exec A) (k : A -> Exec B) h :
  (forall v h1, within Same_status (k v) h1) ->
  connectStatus (after (bind m k) h) = connectStatus (after m h).
Proof.
  intros Hk. unfold after, bind.
  destruct (m h) as [[[v|e] h1] ev1]; [|done].
  specialize (Hk v h1). unfold within, Same_status, after in Hk.
  by destruct (k v h1) as [[c h2] ev2].
Qed.

(** C9.  When [handleResponse] is given a non-zero httpCode for a known
    request id while the status is neither STOPPED nor RUNNING (OUTDATED
    included), the handler ends up RUNNING whatever the response says; with
    a request implementation in place and callbacks on the request, the
    promotion (replay of the queue, then the listener) comes first and the
    success or error callback after it, and the entry is removed. *)
Theorem response_promotes_to_running httpCode response requestId requestInfo h :
  connectStatus h <> STOPPED ->
  connectStatus h <> RUNNING ->
  idCallbackHash h !! requestId = Some requestInfo ->
  httpCode <> 0%Z ->
  connectStatus (after (handleResponse U httpCode response requestId) h) = RUNNING
  /\ (forall impl callbacks,
        requestImplementation h = Some impl ->
        IRequest.callbacks requestInfo = Some callbacks ->
        let parsed := parseJson U response in
        let ok := (httpCode =? 200)%Z && negb (error_defined parsed) in
        handleResponse U httpCode response requestId h
        = (Normal Null,
           set_idCallbackHash (delete requestId (idCallbackHash h))
             ((if ok then set_pollingRequestErrors 0 else fun h => h)
                (set_requestQueue [] (set_connectStatus RUNNING h))),
           map (replay U) (rev (requestQueue h))
           ++ listener_events h RUNNING
           ++ [Invoke (if ok then success callbacks else error callbacks)
                 (ParsedResponse parsed)])).
Proof.
  intros Hstop Hrun Hk Hcode.
  apply Z.eqb_neq in Hcode.
  assert (handleResponse U httpCode response requestId h
            = bind (changeConnectStatus U RUNNING)
                (fun _ =>
                   let parsedResponse := parseJson U response in
                   (if (httpCode =? 200)%Z && negb (error_defined parsedResponse) then
                      modify (set_pollingRequestErrors 0) >>
                      let* callbacks := the_callbacks requestInfo in
                      emit (Invoke (success callbacks) (ParsedResponse parsedResponse))
                    else
                      let* callbacks := the_callbacks requestInfo in
                      emit (Invoke (error callbacks) (ParsedResponse parsedResponse))) >>
                   modify (fun h => set_idCallbackHash
                             (delete requestId (idCallbackHash h)) h) >>
                   ret Null) h) as Hshape.
  { unfold handleResponse. exec.
    destruct (decide (connectStatus h = STOPPED)); [done|]. exec.
    rewrite Hk, Hcode. exec.
    destruct (decide (connectStatus h = RUNNING)); [done|]. reflexivity. }
  split.
  - rewrite (after_ext _ _ _ Hshape).
    rewrite after_bind_same_status; [apply changeConnectStatus_status|].
    intros _ h1. unfold the_callbacks.
    repeat within_step; auto using same_status_emit; by apply same_status_modify.
  - intros impl callbacks Himpl Hcb parsed ok. rewrite Hshape.
    erewrite bind_normal; [|by apply (changeConnectStatus_RUNNING U impl)]. fields.
    fold parsed. fold ok. unfold the_callbacks. rewrite Hcb.
    destruct ok; exec; by rewrite <- app_assoc.
Qed.

(** While RUNNING, a response with a non-zero httpCode is delivered to the
    success or error callback and the entry is removed. *)
Lemma delivered_response_removes_entry httpCode response requestId requestInfo
    callbacks h :
  connectStatus h = RUNNING ->
  idCallbackHash h !! requestId = Some requestInfo ->
  IRequest.callbacks requestInfo = Some callbacks ->
  httpCode <> 0%Z ->
  let parsed := parseJson U response in
  let ok := (httpCode =? 200)%Z && negb (error_defined parsed) in
  handleResponse U httpCode response requestId h
  = (Normal Null,
     set_idCallbackHash (delete requestId (idCallbackHash h))
       ((if ok then set_pollingRequestErrors 0 else fun h => h) h),
     [Invoke (if ok then success callbacks else error callbacks)
        (ParsedResponse parsed)]).
Proof.
  intros Hrun Hk Hcb Hcode parsed ok. apply Z.eqb_neq in Hcode.
  unfold handleResponse. exec. rewrite Hrun.
  destruct (decide (RUNNING = STOPPED)) as [?|_]; [done|]. exec.
  rewrite Hk, Hcode. exec. rewrite Hrun.
  destruct (decide (RUNNING = RUNNING)) as [_|?]; [|done]. exec.
  fold parsed. fold ok. unfold the_callbacks. rewrite Hcb.
  destruct ok; exec; reflexivity.
Qed.

End Recovery.

Lemma response_promotes_to_running_witness :
  connectStatus (Sample.queued OUTDATED Sample.activity) = OUTDATED
  /\ idCallbackHash (Sample.queued OUTDATED Sample.activity) !! 0 = Some Sample.activity
  /\ connectStatus
       (after (handleResponse Sample.utils 500 "{}" 0)
          (Sample.queued OUTDATED Sample.activity))
     = RUNNING
  /\ events (handleResponse Sample.utils 500 "{}" 0)
       (Sample.queued OUTDATED Sample.activity)
     = [replay Sample.utils Sample.activity;
        Invoke (UserFn 2) (ParsedResponse (parseJson Sample.utils "{}"))].
Proof.
  assert (connectStatus (Sample.queued OUTDATED Sample.activity) <> STOPPED) as H1
    by done.
  assert (connectStatus (Sample.queued OUTDATED Sample.activity) <> RUNNING) as H2
    by done.
  assert (idCallbackHash (Sample.queued OUTDATED Sample.activity) !! 0
          = Some Sample.activity) as H3 by apply lookup_singleton_eq.
  assert (500 <> 0)%Z as H4 by done.
  destruct (response_promotes_to_running Sample.utils 500 "{}" 0 Sample.activity
              (Sample.queued OUTDATED Sample.activity) H1 H2 H3 H4)
    as [Hstatus Hrun].
  split; [reflexivity|]. split; [exact H3|]. split; [exact Hstatus|].
  unfold events.
  rewrite (Hrun XMLhttpRequestImplementation {| success := UserFn 1; error := UserFn 2 |}
             eq_refl eq_refl).
  reflexivity.
Defined.

(** ** Stopping *)

(** C10, as the code has it.  With a request implementation in place,
    [stopRequests] returns true and assigns STOPPED directly: the listener
    is not called, the queue and the table of pending requests are left as
    they were, and the only call that leaves the handler is the adapter's
    [stop], when the adapter has one. *)
Theorem stopRequests_with_implementation U impl h :
  requestImplementation h = Some impl ->
  stopRequests U h
  = (Normal JsTrue, set_connectStatus STOPPED h,
     if stop_is_function U impl then [AdapterStop impl] else [])
  /\ requestQueue (after (stopRequests U) h) = requestQueue h
  /\ idCallbackHash (after (stopRequests U) h) = idCallbackHash h
  /\ (forall l s, StatusListener l s ∉ events (stopRequests U) h).
Proof.
  intros Himpl.
  assert (stopRequests U h
          = (Normal JsTrue, set_connectStatus STOPPED h,
             if stop_is_function U impl then [AdapterStop impl] else [])) as Hstop.
  { unfold stopRequests, the_requestImplementation. exec. rewrite Himpl. exec.
    destruct (stop_is_function U impl); reflexivity. }
  split; [exact Hstop|]. unfold after, events. rewrite Hstop. fields.
  repeat split. intros l s.
  destruct (stop_is_function U impl).
  - rewrite list_elem_of_singleton. discriminate.
  - apply not_elem_of_nil.
Qed.

Lemma stopRequests_with_implementation_witness :
  requestImplementation (Sample.listening (Sample.queued RUNNING Sample.activity))
  = Some XMLhttpRequestImplementation
  /\ stopRequests Sample.utils (Sample.listening (Sample.queued RUNNING Sample.activity))
     = (Normal JsTrue,
        Sample.listening (Sample.queued STOPPED Sample.activity),
        [AdapterStop XMLhttpRequestImplementation]).
Proof.
  assert (requestImplementation
            (Sample.listening (Sample.queued RUNNING Sample.activity))
          = Some XMLhttpRequestImplementation) as H by reflexivity.
  split; [exact H|].
  destruct (stopRequests_with_implementation Sample.utils
              XMLhttpRequestImplementation _ H) as (Hstop & _).
  exact Hstop.
Defined.

(** C10 as stated fails while no request implementation has been chosen:
    the status is assigned, then reading [stop] of [null] throws, and
    nothing is returned.  That is the case of a fresh handler, and of a
    handler whose [init] is still waiting for extension detection. *)
Lemma stopRequests_without_implementation_throws :
  requestImplementation (new_RequestHandler INITIALIZING) = None
  /\ stopRequests Sample.utils (new_RequestHandler INITIALIZING)
     = (TypeError "requestImplementation",
        set_connectStatus STOPPED (new_RequestHandler INITIALIZING), [])
  /\ snd (run Sample.extension_utils [Init Sample.default_options]
            (new_RequestHandler INITIALIZING))
     = [DetectExtension NativeMessageExtRequestImplementation 1000]
  /\ stopRequests Sample.extension_utils Sample.detecting
     = (TypeError "requestImplementation",
        set_connectStatus STOPPED Sample.detecting, []).
Proof. vm_compute. repeat split; reflexivity. Qed.

(** * Further properties of the request handler *)

Lemma run_app U ops1 ops2 h :
  run U (ops1 ++ ops2) h
  = (fst (run U ops2 (fst (run U ops1 h))),
     snd (run U ops1 h) ++ snd (run U ops2 (fst (run U ops1 h)))).
Proof.
  revert h. induction ops1 as [|op ops1 IH]; intros h.
  - simpl. by destruct (run U ops2 h).
  - cbn [app run]. rewrite IH.
    destruct (run U ops1 (after (call U op) h)) as [h1 ev1]. cbn [fst snd].
    by rewrite app_assoc.
Qed.

(** ** Replay order *)

Section ReplayOrder.

Variable U : Utils.

(** Submissions made while the handler waits are queued in order, and
    nothing else changes but the table and the counter. *)
Lemma run_submissions subs h :
  connectStatus h <> RUNNING -> connectStatus h <> STOPPED ->
  connectStatus h <> DEGRADED ->
  snd (run U (map submit subs) h) = []
  /\ requestQueue (fst (run U (map submit subs) h))
     = requestQueue h ++ submitted_requests (nextId h) subs
  /\ connectStatus (fst (run U (map submit subs) h)) = connectStatus h
  /\ requestImplementation (fst (run U (map submit subs) h))
     = requestImplementation h
  /\ statusListener (fst (run U (map submit subs) h)) = statusListener h.
Proof.
  revert h. induction subs as [|s subs IH]; intros h H1 H2 H3.
  - simpl. by rewrite app_nil_r.
  - cbn [map run submit call]. unfold after, events.
    rewrite start_queues by done. fields.
    match goal with
    | |- context [run U (map submit subs) ?h1] =>
        destruct (IH h1) as (Hev & Hq & Hs & Hi & Hl); try done;
        destruct (run U (map submit subs) h1) as [h' ev'] eqn:Hrun
    end.
    cbn [fst snd] in *. subst ev'. rewrite Hq, Hs, Hi, Hl. fields.
    repeat split; try done.
    by rewrite <- app_assoc.
Qed.

(** X1.  Requests submitted while the handler waits are replayed, when the
    status becomes RUNNING, in the reverse of the order of submission,
    ahead of the requests that were queued before them; each goes out
    once, under the id [start] gave it, and with [Utils.SESSION_ID] in
    place of the session id the caller passed. *)
Theorem replay_reverses_submissions subs impl h :
  connectStatus h <> RUNNING -> connectStatus h <> STOPPED ->
  connectStatus h <> DEGRADED ->
  requestImplementation h = Some impl ->
  snd (run U (map submit subs ++ [ChangeConnectStatus RUNNING]) h)
  = map (replay U) (rev (submitted_requests (nextId h) subs))
    ++ map (replay U) (rev (requestQueue h))
    ++ listener_events h RUNNING
  /\ requestQueue (fst (run U (map submit subs ++ [ChangeConnectStatus RUNNING]) h))
     = []
  /\ connectStatus (fst (run U (map submit subs ++ [ChangeConnectStatus RUNNING]) h))
     = RUNNING.
Proof.
  intros H1 H2 H3 Himpl.
  destruct (run_submissions subs h H1 H2 H3) as (Hev & Hq & Hs & Hi & Hl).
  rewrite run_app. cbn [fst snd]. rewrite Hev.
  cbn [run call]. unfold after, events.
  rewrite (changeConnectStatus_RUNNING U impl) by congruence.
  fields. rewrite Hq. unfold listener_events. rewrite Hl.
  rewrite rev_app_distr, map_app, app_nil_r, <- app_assoc.
  by repeat split.
Qed.

End ReplayOrder.

Lemma replay_reverses_submissions_witness :
  connectStatus (Sample.handler INITIALIZING) <> RUNNING
  /\ requestImplementation (Sample.handler INITIALIZING)
     = Some XMLhttpRequestImplementation
  /\ snd (run Sample.utils
            (map submit [Scenario.ping; Scenario.transfer]
             ++ [ChangeConnectStatus RUNNING])
            (Sample.handler INITIALIZING))
     = [HttpRequest HTTP_METHOD.POST "/connect/transfers/start" (Some (Raw "{}"))
          (Some HandleResponse) 1 (Some "session-1");
        HttpRequest HTTP_METHOD.GET "/connect/info/ping" None
          (Some HandleResponse) 0 (Some "session-1")].
Proof.
  assert (connectStatus (Sample.handler INITIALIZING) <> RUNNING) as H1 by done.
  assert (connectStatus (Sample.handler INITIALIZING) <> STOPPED) as H2 by done.
  assert (connectStatus (Sample.handler INITIALIZING) <> DEGRADED) as H3 by done.
  assert (requestImplementation (Sample.handler INITIALIZING)
          = Some XMLhttpRequestImplementation) as H4 by reflexivity.
  split; [exact H1|]. split; [exact H4|].
  destruct (replay_reverses_submissions Sample.utils
              [Scenario.ping; Scenario.transfer] XMLhttpRequestImplementation
              (Sample.handler INITIALIZING) H1 H2 H3 H4) as (Hev & _).
  exact Hev.
Defined.

(** ** A request from submission to answer *)

Section RoundTrip.

Variable U : Utils.

Lemma start_sends impl method path data sessionId callbacks h :
  connectStatus h = RUNNING ->
  requestImplementation h = Some impl ->
  start method path data sessionId callbacks h
  = (Normal Null,
     set_idCallbackHash
       (<[nextId h := new_request h method path data callbacks]> (idCallbackHash h))
       (set_nextId (nextId h + 1) h),
     [HttpRequest method path (Raw <$> data) (Some HandleResponse) (nextId h)
        (Some sessionId)]).
Proof.
  intros Hs Himpl. unfold start, nextId_postincrement. exec. rewrite Hs.
  destruct (decide (RUNNING = STOPPED)) as [?|_]; [done|]. exec. rewrite Hs.
  destruct (decide (RUNNING = DEGRADED)) as [?|_]; [done|]. exec. rewrite Hs.
  destruct (decide (RUNNING = RUNNING)) as [_|?]; [|done].
  erewrite bind_normal; [|apply (httpRequest_sends impl); exact Himpl].
  reflexivity.
Qed.

(** A response for an id that is not pending is dropped. *)
Lemma handleResponse_unknown httpCode response requestId h :
  idCallbackHash h !! requestId = None ->
  events (handleResponse U httpCode response requestId) h = []
  /\ after (handleResponse U httpCode response requestId) h = h.
Proof.
  intros Hk. unfold events, after, handleResponse. exec.
  destruct (decide (connectStatus h = STOPPED)); [done|]. exec.
  by rewrite Hk.
Qed.

(** X2.  A request started while RUNNING goes to the adapter at once, under a
    fresh id and with the caller's session id, and is not queued; when
    the answer is a 200 without an error field its success callback is
    called once with the parsed body, the table of pending requests is
    back to what it was and the polling error counter is 0; a further
    response for the same id, whatever it says, is dropped. *)
Theorem started_request_is_answered_once impl method path data sessionId callbacks
    response httpCode' response' h :
  consistent h ->
  connectStatus h = RUNNING ->
  requestImplementation h = Some impl ->
  error_defined (parseJson U response) = false ->
  run U [Start method path data sessionId callbacks;
         HandleResponseOp 200 response (nextId h);
         HandleResponseOp httpCode' response' (nextId h)] h
  = (set_pollingRequestErrors 0 (set_nextId (nextId h + 1) h),
     [HttpRequest method path (Raw <$> data) (Some HandleResponse) (nextId h)
        (Some sessionId);
      Invoke (success (prepare_callbacks callbacks))
        (ParsedResponse (parseJson U response))]).
Proof.
  intros Hc Hs Himpl Herr.
  assert (idCallbackHash h !! nextId h = None) as Hfresh.
  { destruct (idCallbackHash h !! nextId h) as [r|] eqn:Hk; [|done].
    destruct (table_ids _ Hc _ _ Hk). lia. }
  cbn [run call]. unfold after, events.
  rewrite (start_sends impl) by done. fields.
  rewrite (delivered_response_removes_entry U 200 response (nextId h)
             (new_request h method path data callbacks)
             (prepare_callbacks callbacks));
    [|done|apply lookup_insert_eq|done|done].
  rewrite Herr. cbn [Z.eqb Pos.eqb negb andb]. fields.
  rewrite delete_insert_id by done.
  match goal with
  | |- context [handleResponse U httpCode' response' (nextId h) ?h1] =>
      destruct (handleResponse_unknown httpCode' response' (nextId h) h1 Hfresh)
        as [Hev Hafter]
  end.
  unfold events, after in Hev, Hafter. rewrite Hev, Hafter.
  destruct h; reflexivity.
Qed.

(** X3.  A connection error on a request that is not debounced costs nothing
    but a delay: the request is put at the end of the queue, goes out
    again under the same id when the status next becomes RUNNING, ahead of
    the requests that were already waiting, and its success callback is
    called when that attempt is answered.  The caller hears nothing of the
    failed attempt. *)
Theorem failed_request_is_retried impl response0 response requestId requestInfo
    callbacks h :
  connectStatus h <> STOPPED ->
  requestImplementation h = Some impl ->
  idCallbackHash h !! requestId = Some requestInfo ->
  IRequest.callbacks requestInfo = Some callbacks ->
  (pollingRequestErrors h <? MAX_POLLING_ERRORS)
  && (indexOf (IRequest.path requestInfo) polling_path >? 0)%Z = false ->
  error_defined (parseJson U response) = false ->
  handleResponse U 0 response0 requestId h
  = (Normal Null, set_requestQueue (requestQueue h ++ [requestInfo]) h, [])
  /\ snd (run U [HandleResponseOp 0 response0 requestId;
                 ChangeConnectStatus RUNNING;
                 HandleResponseOp 200 response requestId] h)
     = [replay U requestInfo]
       ++ map (replay U) (rev (requestQueue h))
       ++ listener_events h RUNNING
       ++ [Invoke (success callbacks) (ParsedResponse (parseJson U response))]
  /\ idCallbackHash
       (fst (run U [HandleResponseOp 0 response0 requestId;
                    ChangeConnectStatus RUNNING;
                    HandleResponseOp 200 response requestId] h)) !! requestId
     = None
  /\ requestQueue
       (fst (run U [HandleResponseOp 0 response0 requestId;
                    ChangeConnectStatus RUNNING;
                    HandleResponseOp 200 response requestId] h))
     = [].
Proof.
  intros Hs Himpl Hk Hcb Hcond Herr.
  split; [by apply handleResponse_requeued|].
  cbn [run call]. unfold after, events.
  rewrite (handleResponse_requeued U response0 requestId requestInfo h) by done.
  fields.
  rewrite (changeConnectStatus_RUNNING U impl) by done. fields.
  rewrite (delivered_response_removes_entry U 200 response requestId requestInfo
             callbacks) by done.
  rewrite Herr. cbn [Z.eqb Pos.eqb negb andb]. fields.
  unfold listener_events. fields.
  rewrite rev_app_distr. cbn [rev app map].
  split; [by rewrite <- app_assoc|].
  split; [apply lookup_delete_eq|done].
Qed.

End RoundTrip.

Lemma started_request_is_answered_once_witness :
  connectStatus (Sample.handler RUNNING) = RUNNING
  /\ error_defined (parseJson Sample.utils "{}") = false
  /\ run Sample.utils
       [Start HTTP_METHOD.GET "/connect/info/ping" None "tab-7" NoCallbacks;
        HandleResponseOp 200 "{}" 0;
        HandleResponseOp 200 "{}" 0]
       (Sample.handler RUNNING)
     = (set_nextId 1 (Sample.handler RUNNING),
        [HttpRequest HTTP_METHOD.GET "/connect/info/ping" None (Some HandleResponse)
           0 (Some "tab-7");
         Invoke NoopFn (ParsedResponse (parseJson Sample.utils "{}"))]).
Proof.
  assert (consistent (Sample.handler RUNNING)) as H0.
  { split; simpl.
    - intros k r Hk. by rewrite lookup_empty in Hk.
    - intros r Hr. by apply elem_of_nil in Hr. }
  assert (connectStatus (Sample.handler RUNNING) = RUNNING) as H1 by reflexivity.
  assert (requestImplementation (Sample.handler RUNNING)
          = Some XMLhttpRequestImplementation) as H2 by reflexivity.
  assert (error_defined (parseJson Sample.utils "{}") = false) as H3
    by (vm_compute; reflexivity).
  split; [exact H1|]. split; [exact H3|].
  exact (started_request_is_answered_once Sample.utils XMLhttpRequestImplementation
           HTTP_METHOD.GET "/connect/info/ping" None "tab-7" NoCallbacks
           "{}" 200 "{}" (Sample.handler RUNNING) H0 H1 H2 H3).
Defined.

Lemma failed_request_is_retried_witness :
  connectStatus Scenario.backlog <> STOPPED
  /\ requestQueue Scenario.backlog = [Sample.activity]
  /\ idCallbackHash Scenario.backlog !! 1 = Some Scenario.later_upload
  /\ snd (run Sample.utils
            [HandleResponseOp 0 "" 1; ChangeConnectStatus RUNNING;
             HandleResponseOp 200 "{}" 1]
            Scenario.backlog)
     = [replay Sample.utils Scenario.later_upload;
        replay Sample.utils Sample.activity;
        Invoke (UserFn 1) (ParsedResponse (parseJson Sample.utils "{}"))].
Proof.
  assert (connectStatus Scenario.backlog <> STOPPED) as H1 by done.
  assert (idCallbackHash Scenario.backlog !! 1 = Some Scenario.later_upload) as H2
    by apply lookup_insert_eq.
  assert (error_defined (parseJson Sample.utils "{}") = false) as H3
    by (vm_compute; reflexivity).
  split; [exact H1|]. split; [reflexivity|]. split; [exact H2|].
  destruct (failed_request_is_retried Sample.utils XMLhttpRequestImplementation
              "" "{}" 1 Scenario.later_upload
              {| success := UserFn 1; error := UserFn 2 |}
              Scenario.backlog H1 eq_refl H2 eq_refl eq_refl H3) as (_ & Hev & _).
  exact Hev.
Defined.

(** ** What reaches the adapter and the queue *)

(** X4.  Over the life of a handler, every request id handed to the adapter and
    every request in the queue carries an id that was taken from the
    counter: it is below [nextId]. *)
Theorem only_allocated_ids_are_used U status0 ops :
  (forall i,
     i ∈ sent_ids (snd (run U ops (new_RequestHandler status0))) ->
     i < nextId (fst (run U ops (new_RequestHandler status0))))
  /\ (forall r,
        r ∈ requestQueue (fst (run U ops (new_RequestHandler status0))) ->
        IRequest.id r < nextId (fst (run U ops (new_RequestHandler status0)))).
Proof.
  pose proof (run_grows U ops (new_RequestHandler status0)) as HG.
  pose proof (run_consistent U ops _ (new_RequestHandler_consistent status0)) as HC.
  split.
  - intros i Hi. destruct (grows_sent _ _ _ HG i Hi) as [(r & Hk & _)|?]; [|lia].
    destruct Hk as [Hq|[k Hk]]; simpl in *.
    + by apply elem_of_nil in Hq.
    + by rewrite lookup_empty in Hk.
  - apply (queue_ids _ HC).
Qed.

(** ** The polling error counter *)

Global Instance Bounded_errors_composable : Composable Bounded_errors.
Proof. split; unfold Bounded_errors; auto. Qed.

Lemma bounded_modify f h :
  pollingRequestErrors (f h) = pollingRequestErrors h ->
  within Bounded_errors (modify f) h.
Proof. intros Hf Hb. unfold after; simpl. by rewrite Hf. Qed.

Lemma bounded_emit e h : within Bounded_errors (emit e) h.
Proof. by intros Hb. Qed.

Lemma processQueue_bounded U h : within Bounded_errors (processQueue U) h.
Proof.
  intros Hb. unfold after.
  destruct (requestImplementation h) as [impl|] eqn:Himpl.
  - by rewrite (processQueue_sends U impl h Himpl).
  - rewrite (processQueue_no_implementation U h Himpl).
    by destruct (pop (requestQueue h)) as [[? ?]|].
Qed.

Create HintDb bounded.

#[local] Hint Resolve bounded_emit processQueue_bounded : bounded.
#[local] Hint Extern 1 (within Bounded_errors (modify _) _) =>
  apply bounded_modify; reflexivity : bounded.

Ltac bounded := repeat within_step; eauto with bounded.

Section Counter.

Variable U : Utils.

Lemma checkVersion_bounded h : within Bounded_errors checkVersion h.
Proof.
  unfold checkVersion, nextId_postincrement, httpRequest, the_requestImplementation.
  bounded.
Qed.

Lemma changeConnectStatus_bounded s h :
  within Bounded_errors (changeConnectStatus U s) h.
Proof. unfold changeConnectStatus. bounded. apply checkVersion_bounded. Qed.

Lemma handleResponse_bounded httpCode response requestId h :
  within Bounded_errors (handleResponse U httpCode response requestId) h.
Proof.
  unfold handleResponse, the_callbacks.
  bounded; try apply changeConnectStatus_bounded.
  - intros _. unfold after; simpl.
    apply andb_prop in Heqb0 as [Hlt _]. apply N.ltb_lt in Hlt.
    unfold MAX_POLLING_ERRORS in *. lia.
  - intros _. unfold after; simpl. unfold MAX_POLLING_ERRORS. lia.
Qed.

Lemma version_gate_bounded h : within Bounded_errors (version_gate U) h.
Proof.
  unfold version_gate, nextId_postincrement, httpRequest, the_requestImplementation.
  bounded; apply changeConnectStatus_bounded.
Qed.

Lemma call_bounded op h : within Bounded_errors (call U op) h.
Proof.
  destruct op; cbn [call];
    auto using handleResponse_bounded, checkVersion_bounded,
      changeConnectStatus_bounded.
  - unfold start, nextId_postincrement, httpRequest, the_requestImplementation.
    bounded. apply checkVersion_bounded.
  - unfold checkVersionCallback. bounded; apply version_gate_bounded.
  - unfold addStatusListener. bounded.
  - unfold init, setHttpRequestImpl, startInitTimeout, setRequestImpl.
    bounded; apply changeConnectStatus_bounded.
  - unfold detectExtension_success, setRequestImpl. bounded.
  - unfold detectExtension_timedout, setHttpRequestImpl, startInitTimeout,
      setRequestImpl.
    bounded; apply changeConnectStatus_bounded.
  - unfold initializeTimeoutCallback. bounded; apply changeConnectStatus_bounded.
  - unfold stopRequests, the_requestImplementation. bounded.
Qed.

(** X5.  The polling error counter never leaves the range from 0 to
    [MAX_POLLING_ERRORS]: whatever calls are made on a handler and
    whatever the adapter answers, [pollingRequestErrors] is at most 3. *)
Theorem polling_errors_bounded status0 ops :
  pollingRequestErrors (fst (run U ops (new_RequestHandler status0)))
  <= MAX_POLLING_ERRORS.
Proof.
  assert (forall h, pollingRequestErrors h <= MAX_POLLING_ERRORS ->
                    pollingRequestErrors (fst (run U ops h)) <= MAX_POLLING_ERRORS)
    as Hgen.
  { induction ops as [|op ops IH]; intros h Hb; [done|].
    cbn [run].
    specialize (IH (after (call U op) h) (call_bounded op h Hb)).
    by destruct (run U ops (after (call U op) h)). }
  apply Hgen. done.
Qed.

End Counter.

(** ** Version answers outside the enforced gate *)

Section VersionAnswers.

Variable U : Utils.

(** A 200 answer to the version check whose body has an [error] field is
    logged and otherwise ignored: the pending entry is removed, and the
    status, the recorded version, the minimum version and the queue stay
    as they were; the listener is not called and nothing is sent. *)
Lemma version_error_is_ignored response requestId h :
  error_defined (parseJson U response) = true ->
  checkVersionCallback U 200 response requestId h
  = (Normal Undefined,
     set_idCallbackHash (delete requestId (idCallbackHash h)) h, []).
Proof.
  intros Herr. unfold checkVersionCallback. exec.
  change (200 =? 200)%Z with true. cbv iota. by rewrite Herr.
Qed.

Lemma version_gate_exception h :
  checkVersionException U = true ->
  version_gate U h = (changeConnectStatus U RUNNING >> ret Undefined) h.
Proof.
  intros Hexc. unfold version_gate. exec. rewrite Hexc.
  rewrite andb_false_r. reflexivity.
Qed.

(** X6.  With the version-check exception set, an answer to the version check
    (any httpCode; a 200 must not carry an error field) brings the status
    to RUNNING whatever version it reports and whatever the status was,
    OUTDATED included; the minimum version is left alone and, with a
    request implementation in place, nothing goes out but the replay of
    the queue and the listener call: no update is required of Connect. *)
Theorem version_exception_lifts_the_gate httpCode response requestId impl h :
  checkVersionException U = true ->
  requestImplementation h = Some impl ->
  (httpCode = 200%Z -> error_defined (parseJson U response) = false) ->
  connectStatus (after (checkVersionCallback U httpCode response requestId) h)
  = RUNNING
  /\ minVersion (after (checkVersionCallback U httpCode response requestId) h)
     = minVersion h
  /\ requestQueue (after (checkVersionCallback U httpCode response requestId) h)
     = []
  /\ events (checkVersionCallback U httpCode response requestId) h
     = map (replay U) (rev (requestQueue h)) ++ listener_events h RUNNING.
Proof.
  intros Hexc Himpl Herr.
  assert (exists h1,
            checkVersionCallback U httpCode response requestId h
            = (changeConnectStatus U RUNNING >> ret Undefined) h1
            /\ minVersion h1 = minVersion h
            /\ requestQueue h1 = requestQueue h
            /\ statusListener h1 = statusListener h
            /\ requestImplementation h1 = requestImplementation h)
    as (h1 & Hrun & Hmin & Hq & Hl & Hi).
  { unfold checkVersionCallback. exec.
    destruct (httpCode =? 200)%Z eqn:Hcode.
    - apply Z.eqb_eq in Hcode. rewrite (Herr Hcode). exec.
      eexists. split; [by apply version_gate_exception|done].
    - eexists. split; [by apply version_gate_exception|done]. }
  unfold after, events. rewrite Hrun.
  erewrite bind_normal;
    [|apply (changeConnectStatus_RUNNING U impl); congruence].
  fields. unfold listener_events. rewrite Hq, Hl.
  by rewrite app_nil_r.
Qed.

End VersionAnswers.

Lemma version_exception_lifts_the_gate_witness :
  checkVersionException Scenario.lenient_utils = true
  /\ connectStatus
       (after (checkVersionCallback Scenario.lenient_utils 200
                 (Sample.version_response "3.0.0") 0)
          (Sample.checking OUTDATED))
     = RUNNING.
Proof.
  split; [reflexivity|].
  apply (version_exception_lifts_the_gate Scenario.lenient_utils 200
           (Sample.version_response "3.0.0") 0 XMLhttpRequestImplementation
           (Sample.checking OUTDATED)).
  - reflexivity.
  - reflexivity.
  - intros _. vm_compute. reflexivity.
Defined.

(** ** init and the callbacks it arms *)

Section Initialisation.

Variable U : Utils.

Lemma setRequestImpl_runs impl h :
  setRequestImpl U impl h
  = (Normal tt, set_requestImplementation (Some impl) h,
     if isSupportedByBrowser U impl then [AdapterInit impl] else []).
Proof.
  unfold setRequestImpl. exec.
  by destruct (isSupportedByBrowser U impl).
Qed.

Lemma setHttpRequestImpl_runs options h :
  setHttpRequestImpl U options h
  = (Normal tt, set_requestImplementation (Some XMLhttpRequestImplementation) h,
     SetTimeout (initializeTimeout options)
     :: if isSupportedByBrowser U XMLhttpRequestImplementation
        then [AdapterInit XMLhttpRequestImplementation] else []).
Proof.
  unfold setHttpRequestImpl, startInitTimeout.
  rewrite (bind_normal _ _ h tt h [SetTimeout (initializeTimeout options)])
    by reflexivity.
  by rewrite setRequestImpl_runs.
Qed.

(** X7.  [init] returns normally whatever the handler and the browser are, and
    touches nothing of the bookkeeping of requests: the requests that were
    pending or queued before it still are, in the same order, the next id
    is not reset, and no HTTP request is made.  The status is INITIALIZING
    afterwards and the minimum version is the one of the options. *)
Theorem init_keeps_requests options h :
  completion (init U options) h = Normal Undefined
  /\ connectStatus (after (init U options) h) = INITIALIZING
  /\ minVersion (after (init U options) h) = options_minVersion options
  /\ requestQueue (after (init U options) h) = requestQueue h
  /\ idCallbackHash (after (init U options) h) = idCallbackHash h
  /\ nextId (after (init U options) h) = nextId h
  /\ sent_ids (events (init U options) h) = [].
Proof.
  unfold completion, after, events, init.
  rewrite (bind_normal _ _ h Null (set_connectStatus INITIALIZING h)
             (listener_events h INITIALIZING))
    by (by apply changeConnectStatus_plain).
  exec. rewrite sent_ids_app.
  assert (sent_ids (listener_events h INITIALIZING) = []) as ->
    by (unfold listener_events; by destruct (statusListener h)).
  destruct (isSupportedByBrowser U NPAPIrequestImplementation).
  { exec. by vm_compute. }
  destruct (String.eqb (connectMethod options) "http"
            || negb (isSupportedByBrowser U (extReqImpl U))).
  - erewrite bind_normal; [|apply setHttpRequestImpl_runs]. fields.
    by destruct (isSupportedByBrowser U XMLhttpRequestImplementation).
  - by vm_compute.
Qed.

Lemma init_detects options h impl ms :
  In (DetectExtension impl ms) (events (init U options) h) ->
  impl = extReqImpl U /\ isSupportedByBrowser U impl = true.
Proof.
  unfold events, init.
  rewrite (bind_normal _ _ h Null (set_connectStatus INITIALIZING h)
             (listener_events h INITIALIZING))
    by (by apply changeConnectStatus_plain).
  exec. rewrite in_app_iff. intros [Hin|Hin].
  { unfold listener_events in Hin. destruct (statusListener h); simpl in Hin;
      [destruct Hin as [?|[]]; discriminate|done]. }
  destruct (isSupportedByBrowser U NPAPIrequestImplementation).
  { simpl in Hin. destruct Hin as [?|[]]. discriminate. }
  destruct (isSupportedByBrowser U (extReqImpl U)) eqn:Hext.
  - destruct (String.eqb (connectMethod options) "http"); simpl in Hin.
    + erewrite bind_normal in Hin; [|apply setHttpRequestImpl_runs].
      simpl in Hin. destruct Hin as [?|Hin]; [discriminate|].
      destruct (isSupportedByBrowser U XMLhttpRequestImplementation);
        simpl in Hin; [destruct Hin as [?|[]]; discriminate|done].
    + destruct Hin as [Heq|[]]. inversion Heq; subst. by rewrite Hext.
  - rewrite orb_true_r in Hin.
    erewrite bind_normal in Hin; [|apply setHttpRequestImpl_runs].
    simpl in Hin. destruct Hin as [?|Hin]; [discriminate|].
    destruct (isSupportedByBrowser U XMLhttpRequestImplementation);
      simpl in Hin; [destruct Hin as [?|[]]; discriminate|done].
Qed.

(** X8.  A detection that [init] asked for ends with a request implementation
    in place, whichever of its two callbacks fires and whenever it does:
    either the adapter that was being detected, whose [init] is then
    called (the "browser is not supported" exit of setRequestImpl is never
    taken for it), or, on a timeout only and never when the options ask
    for the extension, the HTTP adapter with the initialisation timer
    armed.  Neither callback throws. *)
Theorem detection_installs_an_adapter options h impl ms outcome h' :
  In (DetectExtension impl ms) (events (init U options) h) ->
  outcome = DetectExtensionSuccess \/ outcome = DetectExtensionTimedout options ->
  completion (call U outcome) h' = Normal Undefined
  /\ ((requestImplementation (after (call U outcome) h') = Some impl
       /\ In (AdapterInit impl) (events (call U outcome) h'))
      \/ (outcome = DetectExtensionTimedout options
          /\ String.eqb (connectMethod options) "extension" = false
          /\ requestImplementation (after (call U outcome) h')
             = Some XMLhttpRequestImplementation
          /\ In (SetTimeout (initializeTimeout options))
               (events (call U outcome) h'))).
Proof.
  intros Hin Hout. apply init_detects in Hin as [-> Hext].
  unfold completion, after, events.
  destruct Hout as [-> | ->]; cbn [call].
  - unfold detectExtension_success.
    erewrite bind_normal; [|apply setRequestImpl_runs]. rewrite Hext.
    split; [done|]. left. split; [done|]. by left.
  - unfold detectExtension_timedout.
    destruct (String.eqb (connectMethod options) "extension"
              || supportsInstallingExtensions U
                 && (negb (String.eqb (options_minVersion options) "")
                     && negb (versionLessThan (options_minVersion options) "3.9")))
      eqn:Hpolicy.
    + destruct (SAFARI_NO_NPAPI U) eqn:Hsafari.
      * unfold startInitTimeout.
        rewrite (bind_normal _ _ h' tt h' [SetTimeout (initializeTimeout options)])
          by reflexivity.
        erewrite bind_normal; [|apply setRequestImpl_runs]. rewrite Hext.
        split; [done|]. left. split; [done|].
        cbn [snd fst]. rewrite !in_app_iff. right. left. by left.
      * rewrite (bind_normal _ _ h' tt (set_connectStatus EXTENSION_INSTALL h')
                   (listener_events h' EXTENSION_INSTALL
                    ++ [PostMessage "show_extension_install"])).
        2:{ erewrite bind_normal; [|by apply changeConnectStatus_plain].
            reflexivity. }
        erewrite bind_normal; [|apply setRequestImpl_runs]. rewrite Hext.
        split; [done|]. left. split; [done|].
        cbn [snd fst]. rewrite !in_app_iff. right. left. by left.
    + apply orb_false_iff in Hpolicy as [Hmethod _].
      erewrite bind_normal; [|apply setHttpRequestImpl_runs].
      split; [done|]. right. repeat split; try done.
      cbn [snd fst]. rewrite in_app_iff. left. by left.
Qed.

(** X9.  When the initialisation timer fires the handler fails unless Connect
    was reached in the meantime (RUNNING or OUTDATED): the status becomes
    FAILED and the listener is told.  Either way the requests that wait in
    the queue stay there and none of their callbacks is invoked: a failed
    initialisation is not reported to the callers of [start]. *)
Theorem initialize_timeout_fails_quietly h :
  completion (initializeTimeoutCallback U) h = Normal Undefined
  /\ connectStatus (after (initializeTimeoutCallback U) h)
     = (if decide (connectStatus h = RUNNING \/ connectStatus h = OUTDATED)
        then connectStatus h else FAILED)
  /\ events (initializeTimeoutCallback U) h
     = (if decide (connectStatus h = RUNNING \/ connectStatus h = OUTDATED)
        then [] else listener_events h FAILED)
  /\ requestQueue (after (initializeTimeoutCallback U) h) = requestQueue h
  /\ idCallbackHash (after (initializeTimeoutCallback U) h) = idCallbackHash h.
Proof.
  unfold completion, after, events, initializeTimeoutCallback. exec.
  destruct (decide (connectStatus h = RUNNING \/ connectStatus h = OUTDATED))
    as [Hs|Hs].
  - assert (negb (bool_decide (connectStatus h = RUNNING))
            && negb (bool_decide (connectStatus h = OUTDATED)) = false) as ->.
    { destruct Hs as [-> | ->]; reflexivity. }
    done.
  - rewrite !bool_decide_eq_false_2 by tauto. cbn [negb andb].
    erewrite bind_normal; [|by apply changeConnectStatus_plain].
    unfold ret. fields. by rewrite app_nil_r.
Qed.

(** X10.  RUNNING without a request implementation: [processQueue] pops the
    newest queued request and then fails on the missing implementation, so
    the call ends in a TypeError with that request gone from the queue
    (its entry in the table stays, and nothing was sent); the status is
    RUNNING and the listener has not been told. *)
Theorem running_without_adapter_loses_a_request queue requestInfo h :
  requestImplementation h = None ->
  requestQueue h = queue ++ [requestInfo] ->
  changeConnectStatus U RUNNING h
  = (TypeError "requestImplementation",
     set_requestQueue queue (set_connectStatus RUNNING h), []).
Proof.
  intros Himpl Hq. unfold changeConnectStatus. exec.
  destruct (decide (RUNNING = RUNNING)) as [_|?]; [|done].
  erewrite bind_error; [reflexivity|].
  rewrite processQueue_no_implementation by done. fields.
  by rewrite Hq, pop_snoc.
Qed.

End Initialisation.

Lemma detection_installs_an_adapter_witness :
  In (DetectExtension NativeMessageExtRequestImplementation 1000)
    (events (init Sample.extension_utils Sample.default_options)
       (new_RequestHandler INITIALIZING))
  /\ completion (call Sample.extension_utils
                   (DetectExtensionTimedout Sample.default_options))
       Sample.detecting
     = Normal Undefined.
Proof.
  assert (In (DetectExtension NativeMessageExtRequestImplementation 1000)
            (events (init Sample.extension_utils Sample.default_options)
               (new_RequestHandler INITIALIZING))) as Hin
    by (vm_compute; by left).
  split; [exact Hin|].
  apply (detection_installs_an_adapter Sample.extension_utils
           Sample.default_options (new_RequestHandler INITIALIZING)
           NativeMessageExtRequestImplementation 1000
           (DetectExtensionTimedout Sample.default_options)
           Sample.detecting Hin).
  by right.
Defined.

Lemma running_without_adapter_loses_a_request_witness :
  requestImplementation Scenario.early = None
  /\ requestQueue
       (after (changeConnectStatus Sample.utils RUNNING) Scenario.early)
     = submitted_requests 0 [Scenario.ping].
Proof.
  split; [reflexivity|].
  unfold after.
  rewrite (running_without_adapter_loses_a_request Sample.utils
             (submitted_requests 0 [Scenario.ping])
             (IRequest.mk 1 HTTP_METHOD.POST "/connect/transfers/start" (Some "{}")
                (Some (prepare_callbacks (CallbacksObject (Some (UserFn 1)) None))))
             Scenario.early);
    reflexivity.
Defined.

(** ** Event listeners of connect.ts *)

Module ListenerFacts.

Import Listeners.

Lemma indexOf_from_spec fromIndex f listenerArray :
  ((f ∉ listenerArray) /\ indexOf_from fromIndex f listenerArray = (-1)%Z)
  \/ (exists l1 l2,
        listenerArray = l1 ++ f :: l2 /\ (f ∉ l1)
        /\ indexOf_from fromIndex f listenerArray
           = (fromIndex + Z.of_nat (length l1))%Z).
Proof.
  revert fromIndex.
  induction listenerArray as [|x rest IH]; intros fromIndex; simpl.
  - left. split; [apply not_elem_of_nil|done].
  - destruct (decide (x = f)) as [->|Hne].
    + right. exists [], rest. simpl. split; [done|].
      split; [apply not_elem_of_nil|lia].
    + destruct (IH (fromIndex + 1)%Z) as [[Hnot Hidx]|(l1 & l2 & -> & Hnot & Hidx)].
      * left. split; [|done]. rewrite elem_of_cons.
        intros [Heq|Hin]; [by destruct Hne|done].
      * right. exists (x :: l1), l2. simpl. split; [done|].
        split; [|rewrite Hidx; lia].
        rewrite elem_of_cons. intros [Heq|Hin]; [by destruct Hne|done].
Qed.

Lemma splice_middle (l1 l2 : list N) x :
  splice (Z.of_nat (length l1)) (l1 ++ x :: l2) = l1 ++ l2.
Proof.
  unfold splice. rewrite Nat2Z.id.
  induction l1 as [|y l1 IH]; simpl; [by rewrite drop_0|].
  f_equal. exact IH.
Qed.

Lemma filter_absent f (l : list N) :
  f ∉ l -> filter (fun x => x <> f) l = l.
Proof.
  induction l as [|x l IH]; [done|].
  rewrite not_elem_of_cons. intros [Hne Hnot].
  rewrite filter_cons_True by done. by rewrite IH.
Qed.

Lemma filter_middle f (l1 l2 : list N) :
  filter (fun x => x <> f) (l1 ++ f :: l2) = filter (fun x => x <> f) (l1 ++ l2).
Proof.
  rewrite !filter_app. f_equal. by rewrite filter_cons_False by naive_solver.
Qed.

Lemma loop_filters f fuel listenerArray listenerFound :
  (length listenerArray < fuel)%nat ->
  removeEventListenerHelper_loop fuel (JsFunction f) listenerArray listenerFound
    (indexOf (JsFunction f) listenerArray)
  = (listenerFound || bool_decide (f ∈ listenerArray),
     filter (fun x => x <> f) listenerArray).
Proof.
  revert listenerArray listenerFound.
  induction fuel as [|fuel IH]; intros listenerArray listenerFound Hfuel; [lia|].
  cbn [removeEventListenerHelper_loop indexOf].
  destruct (indexOf_from_spec 0 f listenerArray)
    as [[Hnot ->]|(l1 & l2 & -> & Hnot & ->)].
  - change (-1 >? -1)%Z with false. cbv iota.
    rewrite bool_decide_eq_false_2 by done.
    by rewrite orb_false_r, filter_absent.
  - replace (0 + Z.of_nat (length l1) >? -1)%Z with true
      by (symmetry; apply Z.gtb_lt; lia).
    cbv iota zeta. rewrite Z.add_0_l, splice_middle.
    change (indexOf_from 0 f (l1 ++ l2)) with (indexOf (JsFunction f) (l1 ++ l2)).
    rewrite IH.
    2:{ rewrite length_app in *. simpl in Hfuel. lia. }
    rewrite filter_middle. f_equal.
    rewrite (bool_decide_eq_true_2 (f ∈ l1 ++ f :: l2)).
    + by rewrite orb_true_r.
    + rewrite elem_of_app, elem_of_cons. naive_solver.
Qed.

Lemma loop_not_a_function fuel listener listenerArray listenerFound :
  (forall f, listener <> JsFunction f) ->
  removeEventListenerHelper_loop fuel listener listenerArray listenerFound
    (indexOf listener listenerArray)
  = (listenerFound, listenerArray).
Proof.
  intros Hnot. destruct fuel; [done|].
  destruct listener; try done. by destruct (Hnot f).
Qed.

(** X11.  [removeEventListenerHelper] removes every occurrence of the listener
    and keeps the other listeners in their order, and it returns whether
    there was an occurrence; a value that is not a function removes
    nothing and is not found.  The loop needs no more rounds than the
    array is long: with any larger number of rounds allowed the result is
    the same. *)
Theorem removeEventListenerHelper_removes_all listener listenerArray fuel :
  (length listenerArray < fuel)%nat ->
  removeEventListenerHelper_loop fuel listener listenerArray false
    (indexOf listener listenerArray)
  = removeEventListenerHelper listener listenerArray
  /\ removeEventListenerHelper listener listenerArray
     = match listener with
       | JsFunction f =>
           (bool_decide (f ∈ listenerArray),
            filter (fun x => x <> f) listenerArray)
       | _ => (false, listenerArray)
       end.
Proof.
  intros Hfuel. unfold removeEventListenerHelper.
  destruct listener as [|s|f|];
    try (rewrite !loop_not_a_function by done; done).
  rewrite !loop_filters by lia. done.
Qed.

Lemma removeEventListenerHelper_function f listenerArray :
  removeEventListenerHelper (JsFunction f) listenerArray
  = (bool_decide (f ∈ listenerArray), filter (fun x => x <> f) listenerArray).
Proof. unfold removeEventListenerHelper. by rewrite loop_filters by lia. Qed.

Lemma removeEventListenerHelper_shrinks listener listenerArray :
  snd (removeEventListenerHelper listener listenerArray) = listenerArray
  \/ exists f, snd (removeEventListenerHelper listener listenerArray)
               = filter (fun x => x <> f) listenerArray.
Proof.
  destruct listener as [|s|f|];
    try (left; unfold removeEventListenerHelper;
         by rewrite loop_not_a_function by done).
  right. exists f. by rewrite removeEventListenerHelper_function.
Qed.

(** *** The polling timer *)

Lemma remove_listeners_timer type listener c :
  transferEventIntervalId (snd (remove_listeners type listener c))
  = transferEventIntervalId c.
Proof.
  unfold remove_listeners, empty_statusListeners, empty_transferListeners,
    remove_from_statusListeners, remove_from_transferListeners.
  destruct type as [|type|f|]; simpl;
    repeat (match goal with
            | |- context [if ?b then _ else _] => destruct b
            | |- context [match ?x with _ => _ end] => destruct x
            end; simpl);
    reflexivity.
Qed.

Lemma remove_listeners_shrinks type listener c :
  transferListeners (snd (remove_listeners type listener c)) <> [] ->
  transferListeners c <> [].
Proof.
  intros Hne Hnil. apply Hne. clear Hne.
  assert (forall l, snd (removeEventListenerHelper l (transferListeners c)) = [])
    as Hhelper.
  { intros l. rewrite Hnil.
    destruct (removeEventListenerHelper_shrinks l []) as [->|[f ->]]; done. }
  unfold remove_listeners, empty_statusListeners, empty_transferListeners,
    remove_from_statusListeners, remove_from_transferListeners.
  destruct type as [|type|f|]; simpl; rewrite ?Hnil; simpl;
    repeat (match goal with
            | |- context [if ?b then _ else _] => destruct b
            | |- context [match ?x with _ => _ end] => destruct x
            end; simpl; rewrite ?Hnil, ?Hhelper);
    done.
Qed.

Lemma live_timers_app live ev1 ev2 :
  live_timers live (ev1 ++ ev2) = live_timers (live_timers live ev1) ev2.
Proof. apply fold_left_app. Qed.

Lemma call_armed op c :
  proper_handle op -> armed c ->
  armed (fst (call op c))
  /\ live_timers (recorded_timer c) (snd (call op c))
     = recorded_timer (fst (call op c)).
Proof.
  intros Hhandle Harmed. destruct op as [type listener handle|type listener].
  - simpl in Hhandle. unfold call, addEventListener.
    destruct type as [|type|f|]; try done.
    destruct listener as [|s|f|]; try done.
    destruct (String.eqb type Connect.EVENT.TRANSFER
              || String.eqb type Connect.EVENT.ALL).
    + assert (forall c', armed
                (if String.eqb type Connect.EVENT.STATUS
                    || String.eqb type Connect.EVENT.ALL
                 then set_statusListeners (statusListeners c' ++ [f]) c' else c')
              <-> armed c') as Hstatus
        by (intros c'; by destruct (_ || _)).
      assert (forall c', recorded_timer
                (if String.eqb type Connect.EVENT.STATUS
                    || String.eqb type Connect.EVENT.ALL
                 then set_statusListeners (statusListeners c' ++ [f]) c' else c')
              = recorded_timer c') as Hrecorded
        by (intros c'; by destruct (_ || _)).
      unfold recorded_timer in *.
      destruct (transferEventIntervalId c =? 0)%Z eqn:Hid; cbn [fst snd].
      * rewrite Hstatus, Hrecorded. cbn.
        split.
        -- unfold armed. cbn. split; [done|]. intros Hnil.
           by apply app_eq_nil in Hnil as [_ ?].
        -- by rewrite (proj2 (Z.eqb_neq handle 0) Hhandle).
      * rewrite Hstatus, Hrecorded. cbn. rewrite Hid.
        split; [|done].
        unfold armed. cbn. apply Z.eqb_neq in Hid. split; [done|].
        intros Hnil. by apply app_eq_nil in Hnil as [_ ?].
    + cbn [fst snd]. by destruct (_ || _).
  - unfold call, removeEventListener. cbn zeta.
    pose proof (remove_listeners_timer type listener c) as Htimer.
    pose proof (remove_listeners_shrinks type listener c) as Hshrink.
    destruct (remove_listeners type listener c) as [found c']. cbn [fst snd] in *.
    unfold recorded_timer, armed in *.
    destruct (transferListeners c') as [|x l] eqn:Hl; cbn [length Nat.eqb fst snd].
    + cbn. split; [done|].
      rewrite Htimer.
      destruct (transferEventIntervalId c =? 0)%Z eqn:Hid; [done|].
      cbn. by rewrite decide_False by (intros Hne; by destruct Hne).
    + cbn. rewrite Hl, Htimer. split; [|done].
      split; [|done]. intros Hid. apply Harmed in Hid. by destruct Hshrink.
Qed.

(** X12.  Across any sequence of [addEventListener] and [removeEventListener]
    calls, valid or not, the polling timer is set exactly while there are
    transfer listeners, and no timer is leaked: the timers that are still
    running are the one on record in [transferEventIntervalId], or none
    when it is 0.  ([setInterval] returns handles other than 0.) *)
Theorem polling_timer_follows_listeners ops c :
  Forall proper_handle ops ->
  armed c ->
  armed (fst (run ops c))
  /\ live_timers (recorded_timer c) (snd (run ops c))
     = recorded_timer (fst (run ops c)).
Proof.
  intros Hops. revert c.
  induction Hops as [|op ops Hop _ IH]; intros c Harmed; [done|].
  cbn [run fst snd].
  destruct (call_armed op c Hop Harmed) as [Harmed1 Hlive1].
  destruct (IH _ Harmed1) as [Harmed2 Hlive2].
  split; [done|].
  by rewrite live_timers_app, Hlive1.
Qed.

(** *** Registration and notification *)

Lemma manageConnectStatus_listeners newStatus c :
  Connect.statusListeners (fst (Connect.manageConnectStatus newStatus c))
  = Connect.statusListeners c.
Proof.
  unfold Connect.manageConnectStatus. cbn [fst].
  destruct newStatus; try done. by destruct (Connect.connectStatus c).
Qed.

Lemma manageConnectStatus_status newStatus c listeners :
  Connect.connectStatus
    (fst (Connect.manageConnectStatus newStatus
            (Connect.mk (Connect.connectStatus c) listeners
               (Connect.DRAGDROP_ENABLED c))))
  = Connect.connectStatus (fst (Connect.manageConnectStatus newStatus c)).
Proof.
  unfold Connect.manageConnectStatus. cbn [fst].
  destruct c as [status l d]. cbn.
  destruct newStatus; try done. by destruct status.
Qed.

Lemma manageConnectStatus_events newStatus c :
  snd (Connect.manageConnectStatus newStatus c)
  = (if bool_decide (newStatus = RUNNING) && Connect.DRAGDROP_ENABLED c
     then [Connect.ConnectHttpRequest HTTP_METHOD.GET
             "/connect/file/initialize-drag-drop"]
     else [])
    ++ map (fun l => Connect.Listener l Connect.EVENT.STATUS
                       (Connect.connectStatus
                          (fst (Connect.manageConnectStatus newStatus c))))
         (Connect.statusListeners c).
Proof.
  unfold Connect.manageConnectStatus, Connect.notifyStatusListeners.
  cbn [fst snd]. f_equal. f_equal.
  destruct newStatus; try done. by destruct (Connect.connectStatus c).
Qed.

(** X13.  A listener registered for status events (as STATUS or as ALL) is the
    last one told of the next status change, after the listeners that
    were registered before it, which are told as they would have been. *)
Theorem added_listener_is_notified_last type f handle c newStatus :
  type = Connect.EVENT.STATUS \/ type = Connect.EVENT.ALL ->
  fst (fst (addEventListener (JsString type) (JsFunction f) handle c)) = JsNull
  /\ snd (Connect.manageConnectStatus newStatus
            (connect (snd (fst (addEventListener (JsString type) (JsFunction f)
                                  handle c)))))
     = snd (Connect.manageConnectStatus newStatus (connect c))
       ++ [Connect.Listener f Connect.EVENT.STATUS
             (Connect.connectStatus
                (fst (Connect.manageConnectStatus newStatus (connect c))))].
Proof.
  intros Htype. split.
  { unfold addEventListener.
    destruct Htype as [-> | ->]; cbn;
      by destruct (transferEventIntervalId c =? 0)%Z. }
  assert (connect (snd (fst (addEventListener (JsString type) (JsFunction f)
                               handle c)))
          = Connect.mk (Connect.connectStatus (connect c))
              (statusListeners c ++ [f])
              (Connect.DRAGDROP_ENABLED (connect c))) as ->.
  { unfold addEventListener.
    destruct Htype as [-> | ->]; cbn;
      by destruct (transferEventIntervalId c =? 0)%Z. }
  rewrite !manageConnectStatus_events, manageConnectStatus_status.
  cbn [Connect.statusListeners Connect.DRAGDROP_ENABLED].
  unfold statusListeners. by rewrite map_app, app_assoc.
Qed.

Lemma remove_listeners_transfer f c :
  remove_listeners (JsString Connect.EVENT.TRANSFER) (JsFunction f) c
  = (bool_decide (f ∈ transferListeners c),
     set_transferListeners (filter (fun x => x <> f) (transferListeners c)) c).
Proof.
  unfold remove_listeners, remove_from_transferListeners.
  cbn -[removeEventListenerHelper filter].
  by rewrite removeEventListenerHelper_function.
Qed.

Lemma remove_listeners_status f c :
  remove_listeners (JsString Connect.EVENT.STATUS) (JsFunction f) c
  = (bool_decide (f ∈ statusListeners c),
     set_statusListeners (filter (fun x => x <> f) (statusListeners c)) c).
Proof.
  unfold remove_listeners, remove_from_statusListeners.
  cbn -[removeEventListenerHelper filter statusListeners set_statusListeners].
  by rewrite removeEventListenerHelper_function.
Qed.

Lemma filter_pushed f (l : list N) :
  f ∉ l -> filter (fun x => x <> f) (l ++ [f]) = l.
Proof.
  intros Hnot. rewrite filter_app, filter_absent by done.
  rewrite filter_cons_False by naive_solver. by rewrite filter_nil, app_nil_r.
Qed.

(** X14.  Removing a listener from the status events silences it: it is told
    of no later status change, however often it had been registered,
    while every other listener is still told.  The call returns whether
    the listener was registered. *)
Theorem removed_listener_is_silent f c newStatus :
  fst (fst (removeEventListener (JsString Connect.EVENT.STATUS) (JsFunction f) c))
  = bool_decide (f ∈ statusListeners c)
  /\ (forall eventType status,
        ~ In (Connect.Listener f eventType status)
            (snd (Connect.manageConnectStatus newStatus
                    (connect (snd (fst (removeEventListener
                                          (JsString Connect.EVENT.STATUS)
                                          (JsFunction f) c)))))))
  /\ (forall g,
        g <> f -> g ∈ statusListeners c ->
        In (Connect.Listener g Connect.EVENT.STATUS
              (Connect.connectStatus
                 (fst (Connect.manageConnectStatus newStatus (connect c)))))
           (snd (Connect.manageConnectStatus newStatus
                   (connect (snd (fst (removeEventListener
                                         (JsString Connect.EVENT.STATUS)
                                         (JsFunction f) c))))))).
Proof.
  assert (connect (snd (fst (removeEventListener (JsString Connect.EVENT.STATUS)
                               (JsFunction f) c)))
          = Connect.mk (Connect.connectStatus (connect c))
              (filter (fun x => x <> f) (statusListeners c))
              (Connect.DRAGDROP_ENABLED (connect c))
          /\ fst (fst (removeEventListener (JsString Connect.EVENT.STATUS)
                         (JsFunction f) c))
             = bool_decide (f ∈ statusListeners c)) as [-> ->].
  { unfold removeEventListener. rewrite remove_listeners_status.
    cbn [fst snd]. by destruct (_ =? _)%nat. }
  split; [done|].
  rewrite manageConnectStatus_events, manageConnectStatus_status.
  cbn [Connect.statusListeners Connect.DRAGDROP_ENABLED].
  split.
  - intros eventType status. rewrite in_app_iff, in_map_iff.
    intros [Hin|(g & Heq & Hin)].
    + destruct (_ && _); [destruct Hin as [?|[]]; discriminate|done].
    + inversion Heq; subst.
      apply list_elem_of_In, list_elem_of_filter in Hin.
      by destruct Hin as [Hne _].
  - intros g Hne Hin. rewrite in_app_iff, in_map_iff. right.
    exists g. split; [done|].
    apply list_elem_of_In, list_elem_of_filter. done.
Qed.

(** X15.  Registering a listener for one kind of event and removing it again
    for that kind leaves the closure as it was, timer included, provided
    the listener was not registered before; the removal reports that it
    found the listener. *)
Theorem add_then_remove_restores type f handle c :
  type = Connect.EVENT.TRANSFER \/ type = Connect.EVENT.STATUS ->
  armed c ->
  handle <> 0%Z ->
  f ∉ transferListeners c ->
  f ∉ statusListeners c ->
  fst (removeEventListener (JsString type) (JsFunction f)
         (snd (fst (addEventListener (JsString type) (JsFunction f) handle c))))
  = (true, c).
Proof.
  intros Htype Harmed Hhandle Htransfer Hstatus.
  destruct c as [[status sl dd] tl id]. unfold armed, statusListeners in *.
  cbn [transferListeners transferEventIntervalId connect
       Connect.statusListeners] in *.
  destruct Htype as [-> | ->].
  - unfold removeEventListener. rewrite remove_listeners_transfer.
    unfold addEventListener. cbn -[filter].
    destruct (id =? 0)%Z eqn:Hid; cbn -[filter].
    + apply Z.eqb_eq in Hid. subst id.
      rewrite (proj1 Harmed eq_refl).
      cbn. rewrite decide_False by (intros Hne; by destruct Hne). cbn.
      rewrite bool_decide_eq_true_2; [done|]. apply list_elem_of_singleton. done.
    + rewrite filter_pushed by done.
      rewrite bool_decide_eq_true_2
        by (rewrite elem_of_app, list_elem_of_singleton; by right).
      destruct tl as [|x tl]; [|done].
      apply Z.eqb_neq in Hid. destruct Hid. by apply Harmed.
  - unfold removeEventListener. rewrite remove_listeners_status.
    unfold addEventListener. cbn -[filter].
    rewrite filter_pushed by done.
    rewrite bool_decide_eq_true_2
      by (rewrite elem_of_app, list_elem_of_singleton; by right).
    destruct tl as [|x tl]; [|done].
    cbn. by rewrite (proj2 Harmed eq_refl).
Qed.

(** X16.  A listener that is found among the transfer listeners is not looked
    for among the status listeners: removing a listener registered for
    both kinds, by [removeEventListener(EVENT.ALL, listener)] or by
    [removeEventListener(listener)], reports success and ends its
    transfer events only.  It stays registered for status events and is
    told of the next status change. *)
Theorem found_for_transfer_stays_for_status type listener f c newStatus :
  (type = JsString Connect.EVENT.ALL /\ listener = JsFunction f)
  \/ type = JsFunction f ->
  f ∈ transferListeners c ->
  f ∈ statusListeners c ->
  fst (fst (removeEventListener type listener c)) = true
  /\ transferListeners (snd (fst (removeEventListener type listener c)))
     = filter (fun x => x <> f) (transferListeners c)
  /\ statusListeners (snd (fst (removeEventListener type listener c)))
     = statusListeners c
  /\ In (Connect.Listener f Connect.EVENT.STATUS
           (Connect.connectStatus
              (fst (Connect.manageConnectStatus newStatus (connect c)))))
        (snd (Connect.manageConnectStatus newStatus
                (connect (snd (fst (removeEventListener type listener c)))))).
Proof.
  intros Hcall Htransfer Hstatus.
  assert (remove_listeners type listener c
          = (true, set_transferListeners
                     (filter (fun x => x <> f) (transferListeners c)) c)) as Hremove.
  { unfold remove_listeners, remove_from_statusListeners,
      remove_from_transferListeners.
    destruct Hcall as [[-> ->] | ->];
      cbn -[removeEventListenerHelper filter];
      rewrite removeEventListenerHelper_function;
      by rewrite bool_decide_eq_true_2. }
  assert (connect (snd (fst (removeEventListener type listener c))) = connect c
          /\ transferListeners (snd (fst (removeEventListener type listener c)))
             = filter (fun x => x <> f) (transferListeners c)
          /\ fst (fst (removeEventListener type listener c)) = true)
    as (Hconnect & -> & ->).
  { unfold removeEventListener. rewrite Hremove. cbn [fst snd].
    by destruct (_ =? _)%nat. }
  unfold statusListeners. rewrite Hconnect.
  repeat split.
  rewrite manageConnectStatus_events, in_app_iff, in_map_iff. right.
  exists f. split; [done|]. by apply list_elem_of_In.
Qed.

End ListenerFacts.

Lemma polling_timer_follows_listeners_witness :
  Listeners.armed Scenario.page
  /\ Listeners.armed
       (fst (Listeners.run
               [Listeners.AddEventListener
                  (Listeners.JsString Connect.EVENT.ALL) (Listeners.JsFunction 5) 12;
                Listeners.RemoveEventListener
                  (Listeners.JsFunction 5) Listeners.JsUndefined]
               Scenario.page)).
Proof.
  assert (Listeners.armed Scenario.page) as Harmed by done.
  split; [exact Harmed|].
  apply (ListenerFacts.polling_timer_follows_listeners
           [Listeners.AddEventListener
              (Listeners.JsString Connect.EVENT.ALL) (Listeners.JsFunction 5) 12;
            Listeners.RemoveEventListener
              (Listeners.JsFunction 5) Listeners.JsUndefined]
           Scenario.page); [|exact Harmed].
  repeat constructor. done.
Defined.

Lemma removeEventListenerHelper_removes_all_witness :
  (length [5; 4; 5; 6] < 7)%nat
  /\ Listeners.removeEventListenerHelper (Listeners.JsFunction 5) [5; 4; 5; 6]
     = (true, [4; 6]).
Proof.
  split; [simpl; lia|].
  rewrite (proj2 (ListenerFacts.removeEventListenerHelper_removes_all
                    (Listeners.JsFunction 5) [5; 4; 5; 6] 7 ltac:(simpl; lia))).
  reflexivity.
Defined.

Lemma added_listener_is_notified_last_witness :
  snd (Connect.manageConnectStatus FAILED
         (Listeners.connect
            (snd (fst (Listeners.addEventListener
                         (Listeners.JsString Connect.EVENT.ALL)
                         (Listeners.JsFunction 5) 12 Scenario.page)))))
  = [Connect.Listener 4 Connect.EVENT.STATUS PublicStatus.FAILED;
     Connect.Listener 5 Connect.EVENT.STATUS PublicStatus.FAILED].
Proof.
  rewrite (proj2 (ListenerFacts.added_listener_is_notified_last
                    Connect.EVENT.ALL 5 12 Scenario.page FAILED
                    (or_intror eq_refl))).
  reflexivity.
Defined.

Lemma add_then_remove_restores_witness :
  Listeners.armed Scenario.page
  /\ fst (Listeners.removeEventListener
            (Listeners.JsString Connect.EVENT.TRANSFER) (Listeners.JsFunction 5)
            (snd (fst (Listeners.addEventListener
                         (Listeners.JsString Connect.EVENT.TRANSFER)
                         (Listeners.JsFunction 5) 12 Scenario.page))))
     = (true, Scenario.page).
Proof.
  assert (Listeners.armed Scenario.page) as Harmed by done.
  split; [exact Harmed|].
  apply (ListenerFacts.add_then_remove_restores Connect.EVENT.TRANSFER 5 12
           Scenario.page).
  - by left.
  - exact Harmed.
  - done.
  - apply not_elem_of_nil.
  - unfold Listeners.statusListeners. simpl.
    rewrite list_elem_of_singleton. done.
Defined.

Lemma found_for_transfer_stays_for_status_witness :
  5 ∈ Listeners.transferListeners
        (snd (fst (Listeners.addEventListener
                     (Listeners.JsString Connect.EVENT.ALL)
                     (Listeners.JsFunction 5) 12 Scenario.page)))
  /\ Listeners.statusListeners
       (snd (fst (Listeners.removeEventListener
                    (Listeners.JsString Connect.EVENT.ALL) (Listeners.JsFunction 5)
                    (snd (fst (Listeners.addEventListener
                                 (Listeners.JsString Connect.EVENT.ALL)
                                 (Listeners.JsFunction 5) 12 Scenario.page))))))
     = [4; 5].
Proof.
  assert (5 ∈ Listeners.transferListeners
                (snd (fst (Listeners.addEventListener
                             (Listeners.JsString Connect.EVENT.ALL)
                             (Listeners.JsFunction 5) 12 Scenario.page))))
    as Htransfer by (simpl; apply list_elem_of_singleton; done).
  split; [exact Htransfer|].
  destruct (ListenerFacts.found_for_transfer_stays_for_status
              (Listeners.JsString Connect.EVENT.ALL) (Listeners.JsFunction 5) 5
              (snd (fst (Listeners.addEventListener
                           (Listeners.JsString Connect.EVENT.ALL)
                           (Listeners.JsFunction 5) 12 Scenario.page)))
              RUNNING (or_introl (conj eq_refl eq_refl)) Htransfer)
    as (_ & _ & Hstatus & _).
  - unfold Listeners.statusListeners. simpl.
    rewrite elem_of_cons, list_elem_of_singleton. by right.
  - rewrite Hstatus. reflexivity.
Defined.

(** ** Reconnecting from DEGRADED *)

Section Reconnect.

Variable U : Utils.

(** X17.  A request made while DEGRADED is not lost: [start] sends a version
    check and queues the request, and once that check is answered with a
    version that passes the gate the request goes out, ahead of the older
    backlog and under the handler's session id rather than the one given
    to [start]; the queue is then empty, the status is RUNNING, and the
    request is still pending, waiting for its own answer. *)
Theorem degraded_request_is_sent_after_recheck impl method path data sessionId
    callbacks response h :
  connectStatus h = DEGRADED ->
  requestImplementation h = Some impl ->
  checkVersionException U = false ->
  error_defined (parseJson U response) = false ->
  versionLessThan (version (parseJson U response))
    (effective_minimum (minVersion h)) = false ->
  snd (run U [Start method path data sessionId callbacks;
              CheckVersionCallbackOp 200 response (nextId h + 1)] h)
  = [HttpRequest HTTP_METHOD.GET "/connect/info/version" None
       (Some CheckVersionCallback) (nextId h + 1) None;
     HttpRequest method path (Raw <$> data) (Some HandleResponse) (nextId h)
       (Some (SESSION_ID U))]
    ++ map (replay U) (rev (requestQueue h))
    ++ listener_events h RUNNING
  /\ connectStatus
       (fst (run U [Start method path data sessionId callbacks;
                    CheckVersionCallbackOp 200 response (nextId h + 1)] h))
     = RUNNING
  /\ requestQueue
       (fst (run U [Start method path data sessionId callbacks;
                    CheckVersionCallbackOp 200 response (nextId h + 1)] h))
     = []
  /\ idCallbackHash
       (fst (run U [Start method path data sessionId callbacks;
                    CheckVersionCallbackOp 200 response (nextId h + 1)] h))
     !! nextId h
     = Some (new_request h method path data callbacks).
Proof.
  intros Hs Himpl Hexc Herr Hversion.
  cbn [run call]. unfold after, events.
  rewrite (start_queues_DEGRADED impl) by done. fields.
  match goal with
  | |- context [checkVersionCallback U 200 response ?k ?h1] =>
      assert (checkVersionCallback U 200 response k h1
              = version_gate U
                  (set_connectVersion (version (parseJson U response))
                     (set_idCallbackHash (delete k (idCallbackHash h1)) h1)))
        as ->
  end.
  { unfold checkVersionCallback. exec.
    change (200 =? 200)%Z with true. cbv iota. rewrite Herr. exec. reflexivity. }
  rewrite (version_gate_enforced U impl) by (fields; congruence). fields.
  rewrite Hversion. fields.
  unfold listener_events. fields.
  rewrite rev_app_distr. cbn [rev app map].
  repeat split.
  - by rewrite app_nil_r.
  - rewrite lookup_delete_ne by lia. rewrite lookup_insert_ne by lia.
    apply lookup_insert_eq.
Qed.

End Reconnect.

Lemma degraded_request_is_sent_after_recheck_witness :
  connectStatus (Sample.handler DEGRADED) = DEGRADED
  /\ requestQueue
       (fst (run Sample.utils
               [Start HTTP_METHOD.GET "/connect/info/ping" None "tab-7" NoCallbacks;
                CheckVersionCallbackOp 200 (Sample.version_response "3.9.1") 1]
               (Sample.handler DEGRADED)))
     = [].
Proof.
  split; [reflexivity|].
  apply (degraded_request_is_sent_after_recheck Sample.utils
           XMLhttpRequestImplementation HTTP_METHOD.GET "/connect/info/ping" None
           "tab-7" NoCallbacks (Sample.version_response "3.9.1")
           (Sample.handler DEGRADED));
    vm_compute; reflexivity.
Defined.
